(** * image2math: the LaTeX-to-clean-MathML routine [generateMathML]

    A shallow embedding of [generateMathML] (components/ResultDisplay.tsx)
    and of the platform operations it relies on, followed by the
    properties of the extraction and normalization pipeline.  The
    handlers around it are embedded too: saving one result or all of
    them (ResultDisplay.tsx), the clean-up of the model's answer
    (services/geminiService.ts) and the state of the page (App.tsx).

    Conventions.
    - A JavaScript string is a [string]; the two regular expressions of the
      routine only ever tell apart the characters of their literal
      delimiters from all others, [[\s\S]] accepting every code unit.
    - A regular expression with the [g] flag keeps a cursor [lastIndex];
      neither expression looks behind the cursor, so the cursor is
      represented by the part of the text that is still unread.
    - [window.katex], [DOMParser] and [XMLSerializer] are supplied by the
      host page: they are parameters of the embedding. *)

From Stdlib Require Import String Ascii List Arith Bool Lia.
From Stdlib Require ZArith.
From Equations Require Import Equations.
From Stdlib Require DecimalString.
Import ListNotations.

Open Scope list_scope.
Open Scope string_scope.

#[local] Arguments Ascii.eqb : simpl never.
#[local] Arguments String.eqb : simpl never.

(* ===================================================================== *)
(** ** JavaScript values and completions *)
(* ===================================================================== *)

(** What a capture group of a match array holds: [undefined] when the
    group did not take part in the match, the captured text otherwise. *)
Inductive jsval : Type :=
| undefined : jsval
| str : string -> jsval.

(** ToBoolean, on the values above: [undefined] and the empty string are
    falsy. *)
Definition truthy (v : jsval) : bool :=
  match v with
  | undefined => false
  | str s => negb (s =? "")
  end.

(** [a || b]. *)
Definition js_or (a b : jsval) : jsval := if truthy a then a else b.

(** A thrown value, represented by its message. *)
Definition exn : Type := string.

(** The outcome of evaluating an expression or a call. *)
Inductive completion (A : Type) : Type :=
| Return : A -> completion A
| Throw : exn -> completion A.
Arguments Return {A} _.
Arguments Throw {A} _.

Definition bind {A B : Type} (c : completion A) (k : A -> completion B)
  : completion B :=
  match c with
  | Return a => k a
  | Throw e => Throw e
  end.

Notation "x <- c ;; k" := (bind c (fun x => k))
  (at level 61, c at next level, right associativity).

(** Evaluate [a] and remember what it was evaluated from: lets a loop
    test a value and still know, in its body, where the value came from. *)
Definition inspect {A : Type} (a : A) : {b : A | a = b} := exist _ a eq_refl.

(* ===================================================================== *)
(** ** The two regular expressions *)
(* ===================================================================== *)

Module Regex.

(** [s.startsWith(p)]: the literal [p] can be read at the cursor. *)
Fixpoint starts_with (p s : string) : bool :=
  match p with
  | EmptyString => true
  | String a p' =>
      match s with
      | EmptyString => false
      | String b s' => (a =? b)%char && starts_with p' s'
      end
  end.

(** [s.slice(n)]. *)
Fixpoint drop (n : nat) (s : string) : string :=
  match n, s with
  | 0, _ => s
  | S _, EmptyString => EmptyString
  | S n', String _ s' => drop n' s'
  end.

(** The lazy run [[\s\S]*?] followed by the literal [delim]: the run is
    extended one character at a time until [delim] can be read.  Yields
    the run and what follows the delimiter. *)
Fixpoint lazy_until (delim s : string) : option (string * string) :=
  if starts_with delim s then Some ("", drop (String.length delim) s)
  else
    match s with
    | EmptyString => None
    | String c s' =>
        match lazy_until delim s' with
        | Some (run, rest) => Some (String c run, rest)
        | None => None
        end
    end.

(** The match array of [latexRegex]: capture groups 1 and 2. *)
Record groups : Type := mkGroups { group1 : jsval; group2 : jsval }.

(** First alternative, [\$\$([\s\S]*?)\$\$], read at the cursor. *)
Definition block_alt (s : string) : option (string * string) :=
  if starts_with "$$" s then lazy_until "$$" (drop 2 s) else None.

(** Second alternative, [\$((?!\$)[\s\S]*?)\$], read at the cursor. *)
Definition inline_alt (s : string) : option (string * string) :=
  match s with
  | String "$"%char s' =>
      if starts_with "$" s' then None else lazy_until "$" s'
  | _ => None
  end.

(** [/\$\$([\s\S]*?)\$\$|\$((?!\$)[\s\S]*?)\$/] read at the cursor: the
    alternatives are tried in order. *)
Definition match_here (s : string) : option (groups * string) :=
  match block_alt s with
  | Some (body, rest) => Some (mkGroups (str body) undefined, rest)
  | None =>
      match inline_alt s with
      | Some (body, rest) => Some (mkGroups undefined (str body), rest)
      | None => None
      end
  end.

(** [latexRegex.exec(markdown)]: the leftmost position at or after the
    cursor where the expression matches; the result carries the unread
    text after the match (the new cursor), [None] stands for [null]. *)
Fixpoint exec (s : string) : option (groups * string) :=
  match match_here s with
  | Some r => Some r
  | None =>
      match s with
      | EmptyString => None
      | String _ s' => exec s'
      end
  end.

(** [/<math[\s\S]*?<\/math>/] read at one position; yields element 0 of
    the match array. *)
Definition math_here (s : string) : option string :=
  if starts_with "<math" s then
    match lazy_until "</math>" (drop 5 s) with
    | Some (run, _) => Some ("<math" ++ run ++ "</math>")
    | None => None
    end
  else None.

(** [rawRender.match(/<math[\s\S]*?<\/math>/)]. *)
Fixpoint math_match (s : string) : option string :=
  match math_here s with
  | Some m => Some m
  | None =>
      match s with
      | EmptyString => None
      | String _ s' => math_match s'
      end
  end.

Lemma drop_length n s : String.length (drop n s) <= String.length s.
Proof.
  revert s; induction n as [|n IH]; intros [|c s]; simpl; auto.
Qed.

Lemma lazy_until_length delim s run rest :
  lazy_until delim s = Some (run, rest) ->
  String.length rest <= String.length s.
Proof.
  revert run rest; induction s as [|c s IH]; intros run rest; simpl.
  - destruct (starts_with delim ""); [|discriminate].
    intros H; inversion H; subst. apply drop_length.
  - destruct (starts_with delim (String c s)).
    + intros H; inversion H; subst. apply drop_length.
    + destruct (lazy_until delim s) as [[r1 r2]|] eqn:L; [|discriminate].
      intros H; inversion H; subst. specialize (IH _ _ eq_refl). lia.
Qed.

Lemma match_here_shorter s m rest :
  match_here s = Some (m, rest) -> String.length rest < String.length s.
Proof.
  unfold match_here, block_alt, inline_alt.
  destruct s as [|c s]; [discriminate|].
  destruct (starts_with "$$" (String c s)) eqn:P.
  - destruct s as [|c' s]; [simpl in P; rewrite andb_false_r in P; discriminate|].
    simpl drop.
    destruct (lazy_until "$$" s) as [[b r]|] eqn:L.
    + intros H; inversion H; subst.
      apply lazy_until_length in L. simpl. lia.
    + simpl in P. apply andb_prop in P as [P1 P2].
      apply Ascii.eqb_eq in P1. subst c.
      rewrite andb_true_r in P2. cbn [starts_with]. rewrite P2. discriminate.
  - destruct (Ascii.eqb_spec c "$") as [->|N].
    + destruct (starts_with "$" s); [discriminate|].
      destruct (lazy_until "$" s) as [[b r]|] eqn:L; [|discriminate].
      intros H; inversion H; subst.
      apply lazy_until_length in L. simpl. lia.
    + destruct c as [[] [] [] [] [] [] [] []]; try discriminate.
      congruence.
Qed.

Lemma exec_shorter s m rest :
  exec s = Some (m, rest) -> String.length rest < String.length s.
Proof.
  induction s as [|c s IH]; simpl.
  - discriminate.
  - destruct (match_here (String c s)) as [[m' r']|] eqn:E.
    + intros H; inversion H; subst.
      apply match_here_shorter in E. exact E.
    + intros H. specialize (IH H). lia.
Qed.

(** [s] holds no dollar sign. *)
Fixpoint dollar_free (s : string) : bool :=
  match s with
  | EmptyString => true
  | String c s' => negb (c =? "$")%char && dollar_free s'
  end.

(** The two shapes of a match array: one group took part, the other is
    [undefined]. *)
Inductive match_shape (m : groups) : Prop :=
| BlockForm body :
    group1 m = str body -> group2 m = undefined -> match_shape m
| InlineForm body :
    group1 m = undefined -> group2 m = str body ->
    body <> "" -> dollar_free body = true -> match_shape m.

(** The loop [while ((match = latexRegex.exec(markdown)) !== null)] seen
    as the sequence of match arrays it binds, in the order of the text. *)
Equations? matches (s : string) : list groups by wf (String.length s) lt :=
  matches s with inspect (exec s) := {
    | exist _ (Some (m, rest)) _ => m :: matches rest
    | exist _ None _ => [] }.
Proof. eapply exec_shorter; eauto. Qed.

End Regex.

(* ===================================================================== *)
(** ** The document tree *)
(* ===================================================================== *)

Module Dom.

#[local] Open Scope list_scope.

(** A node of the parsed document: an element with its qualified name,
    attributes and child nodes, or character data (text and the other
    nodes that are not elements). *)
#[local] Unset Elimination Schemes.
Inductive node : Type :=
| Element (tagName : string) (attributes : list (string * string))
          (childNodes : list node)
| CharacterData (data : string).
#[local] Set Elimination Schemes.

(** Induction over a tree: the property of an element follows from the
    property of each of its child nodes. *)
Section NodeInd.
Variable P : node -> Prop.
Hypothesis P_element :
  forall t a k, Forall P k -> P (Element t a k).
Hypothesis P_data : forall d, P (CharacterData d).

Fixpoint node_ind (n : node) : P n :=
  match n with
  | Element t a k =>
      P_element t a k
        ((fix all (ns : list node) : Forall P ns :=
            match ns with
            | [] => Forall_nil P
            | c :: rest => Forall_cons c (node_ind c) (all rest)
            end) k)
  | CharacterData d => P_data d
  end.
End NodeInd.

Definition childNodes (n : node) : list node :=
  match n with
  | Element _ _ k => k
  | CharacterData _ => []
  end.

Definition is_element (n : node) : bool :=
  match n with
  | Element _ _ _ => true
  | CharacterData _ => false
  end.

(** [n] is an element whose [tagName] is [tag]. *)
Definition has_tag (tag : string) (n : node) : bool :=
  match n with
  | Element t _ _ => t =? tag
  | CharacterData _ => false
  end.

(** [Element.children]: the child nodes that are elements. *)
Definition children (n : node) : list node := filter is_element (childNodes n).

(** The elements named [tag] in the subtree of [n], [n] included, in
    document order. *)
Fixpoint elements_named (tag : string) (n : node) : list node :=
  match n with
  | Element t a k =>
      (if t =? tag then [n] else []) ++ flat_map (elements_named tag) k
  | CharacterData _ => []
  end.

(** [root.getElementsByTagName(tag)]: the descendants of [root] named
    [tag], in document order.  The collection is live: it is read again
    after every change of the tree. *)
Definition getElementsByTagName (tag : string) (root : node) : list node :=
  flat_map (elements_named tag) (childNodes root).

(** [while (elem.firstChild) parent.insertBefore(elem.firstChild, elem)]:
    [moved] are the nodes already placed before [elem], [kids] the child
    nodes [elem] still has.  Yields the nodes that stand before [elem]
    when it has no child left. *)
Fixpoint hoist (moved kids : list node) : list node :=
  match kids with
  | [] => moved
  | c :: kids' => hoist (moved ++ [c]) kids'
  end.

(** What is left in the place of an element that is taken out of its
    parent by [parent.removeChild(elem)]. *)
Definition detached (elem : node) : list node := [].

(** What is left in the place of an element whose child nodes are hoisted
    before it and which is then taken out of its parent. *)
Definition promoted (elem : node) : list node := hoist [] (childNodes elem).

Section FirstNamed.

Variable tag : string.
(** The nodes standing in the place of the element once it is edited. *)
Variable edit : node -> list node.

(** Edit [collection[0]], the first descendant of [n] named [tag] in
    document order, inside its parent; [n] is returned as it is when the
    collection is empty. *)
Fixpoint edit_first (n : node) : node :=
  match n with
  | Element t a k =>
      Element t a
        ((fix among (ns : list node) : list node :=
            match ns with
            | [] => []
            | c :: rest =>
                if has_tag tag c then edit c ++ rest
                else
                  match elements_named tag c with
                  | _ :: _ => edit_first c :: rest
                  | [] => c :: among rest
                  end
            end) k)
  | CharacterData _ => n
  end.

(** The same walk over a sequence of siblings. *)
Fixpoint edit_first_among (ns : list node) : list node :=
  match ns with
  | [] => []
  | c :: rest =>
      if has_tag tag c then edit c ++ rest
      else
        match elements_named tag c with
        | _ :: _ => edit_first c :: rest
        | [] => c :: edit_first_among rest
        end
  end.

End FirstNamed.

Lemma edit_first_unfold tag edit t a k :
  edit_first tag edit (Element t a k)
  = Element t a (edit_first_among tag edit k).
Proof. reflexivity. Qed.

Lemma elements_named_untagged tag n :
  has_tag tag n = false -> elements_named tag n = getElementsByTagName tag n.
Proof.
  destruct n as [t a k|d]; simpl; [|reflexivity].
  unfold getElementsByTagName. simpl. intros ->. reflexivity.
Qed.

Lemma has_tag_edit_first tag other edit n :
  has_tag other (edit_first tag edit n) = has_tag other n.
Proof. destruct n; reflexivity. Qed.

(** One step of a loop over a live collection makes the collection
    shorter, as long as the edit puts fewer elements named [tag] in the
    place of the element than the element's subtree held. *)
Lemma edit_first_shrinks tag edit :
  (forall c, has_tag tag c = true ->
     length (flat_map (elements_named tag) (edit c))
     < length (elements_named tag c)) ->
  forall n,
    getElementsByTagName tag n <> [] ->
    length (getElementsByTagName tag (edit_first tag edit n))
    < length (getElementsByTagName tag n).
Proof.
  intros Hedit n.
  induction n as [t a k IH|d] using node_ind; [|intros H; elim H; reflexivity].
  rewrite edit_first_unfold. unfold getElementsByTagName. simpl childNodes.
  induction IH as [|c rest Hc _ IHrest]; [intros H; elim H; reflexivity|].
  simpl. intros Hne.
  destruct (has_tag tag c) eqn:Htag.
  - rewrite flat_map_app, !length_app. specialize (Hedit c Htag). lia.
  - destruct (elements_named tag c) as [|e es] eqn:Hel.
    + simpl. rewrite Hel. simpl. apply IHrest. exact Hne.
    + simpl flat_map. rewrite length_app.
      rewrite elements_named_untagged
        by (rewrite has_tag_edit_first; exact Htag).
      rewrite elements_named_untagged in Hel by exact Htag.
      assert (Hc' : getElementsByTagName tag c <> []) by (rewrite Hel; discriminate).
      specialize (Hc Hc'). rewrite Hel in Hc. rewrite length_app. simpl in *. lia.
Qed.

Lemma hoist_app moved kids : hoist moved kids = moved ++ kids.
Proof.
  revert moved; induction kids as [|c kids IH]; intros moved; simpl.
  - rewrite app_nil_r. reflexivity.
  - rewrite IH, <- app_assoc. reflexivity.
Qed.

Lemma promoted_childNodes elem : promoted elem = childNodes elem.
Proof. unfold promoted. rewrite hoist_app. reflexivity. Qed.

Lemma detached_shrinks tag c :
  has_tag tag c = true ->
  length (flat_map (elements_named tag) (detached c))
  < length (elements_named tag c).
Proof.
  destruct c as [t a k|d]; simpl; [|discriminate].
  intros ->. simpl. lia.
Qed.

Lemma promoted_shrinks tag c :
  has_tag tag c = true ->
  length (flat_map (elements_named tag) (promoted c))
  < length (elements_named tag c).
Proof.
  rewrite promoted_childNodes.
  destruct c as [t a k|d]; simpl; [|discriminate].
  intros ->. simpl. lia.
Qed.

Lemma nonempty_of_ltb {A : Type} (l : list A) :
  (0 <? length l)%nat = true -> l <> [].
Proof. destruct l; simpl; [discriminate|discriminate]. Qed.

(** Step 1 of the clean-up:
    [while (annotations.length > 0)
       annotations[0].parentNode?.removeChild(annotations[0])]. *)
Equations? remove_annotations (mathRoot : node) : node
  by wf (length (getElementsByTagName "annotation" mathRoot)) lt :=
  remove_annotations mathRoot
    with inspect (0 <? length (getElementsByTagName "annotation" mathRoot))%nat := {
    | exist _ true _ =>
        remove_annotations (edit_first "annotation" detached mathRoot)
    | exist _ false _ => mathRoot }.
Proof.
  apply edit_first_shrinks.
  - apply detached_shrinks.
  - apply nonempty_of_ltb. assumption.
Qed.

(** Step 2 of the clean-up:
    [while (semantics.length > 0) {
       const elem = semantics[0]; const parent = elem.parentNode;
       if (parent) {
         while (elem.firstChild) parent.insertBefore(elem.firstChild, elem);
         parent.removeChild(elem); } }].
    An element of the collection is a descendant of the root, so its
    parent is never null. *)
Equations? unwrap_semantics (mathRoot : node) : node
  by wf (length (getElementsByTagName "semantics" mathRoot)) lt :=
  unwrap_semantics mathRoot
    with inspect (0 <? length (getElementsByTagName "semantics" mathRoot))%nat := {
    | exist _ true _ =>
        unwrap_semantics (edit_first "semantics" promoted mathRoot)
    | exist _ false _ => mathRoot }.
Proof.
  apply edit_first_shrinks.
  - apply promoted_shrinks.
  - apply nonempty_of_ltb. assumption.
Qed.

(** The child nodes of the root once [children[0]], its first element
    child, has had its child nodes hoisted before it and has been
    removed. *)
Fixpoint unwrap_first_child (ns : list node) : list node :=
  match ns with
  | [] => []
  | c :: rest =>
      if is_element c then promoted c ++ rest
      else c :: unwrap_first_child rest
  end.

(** Step 3 of the clean-up:
    [if (mathRoot.children.length === 1
         && mathRoot.children[0].tagName === 'mrow') { ... }]. *)
Definition unwrap_top_mrow (mathRoot : node) : node :=
  match mathRoot with
  | Element t a k =>
      match children mathRoot with
      | [mrow] =>
          if has_tag "mrow" mrow then Element t a (unwrap_first_child k)
          else mathRoot
      | _ => mathRoot
      end
  | CharacterData _ => mathRoot
  end.

(** The three steps, in the order of the routine. *)
Definition normalize (mathRoot : node) : node :=
  unwrap_top_mrow (unwrap_semantics (remove_annotations mathRoot)).

(** The renderer's usual shape,
    [<math><semantics><mrow>X</mrow><annotation>Y</annotation></semantics></math>],
    with any attributes. *)
Definition semantics_shape (am asem arow aann : list (string * string))
  (X Y : list node) : node :=
  Element "math" am
    [Element "semantics" asem
       [Element "mrow" arow X; Element "annotation" aann Y]].

End Dom.

(* ===================================================================== *)
(** ** generateMathML *)
(* ===================================================================== *)

Module Pipeline.

Import Regex Dom.

(** [katex.renderToString(latex, { output: 'mathml', throwOnError: false,
    displayMode, strict: false })]: the markup, or a throw.  The routine
    fixes every option but [displayMode]. *)
Definition renderer : Type := jsval -> bool -> completion string.

(** One call of [console.warn(message, e)]. *)
Definition warning : Type := (string * exn)%type.

(** The variables of the routine that its loop updates, and the warnings
    written to the console so far. *)
Record state : Type := mkState {
  output : string;
  count : nat;
  console : list warning
}.

(** The line feed character, and the separator ["\n\n"]. *)
Definition LF : ascii := "010"%char.
Definition blank_line : string := String LF (String LF "").

(** [const latex = match[1] || match[2]]. *)
Definition latex_of (m : groups) : jsval := js_or (group1 m) (group2 m).

(** [const isBlock = !!match[1]]. *)
Definition isBlock_of (m : groups) : bool := truthy (group1 m).

(** What one turn of the loop hands to the renderer. *)
Record MathSpan : Type := mkSpan { rawLatex : jsval; isBlock : bool }.

Definition span_of (m : groups) : MathSpan := mkSpan (latex_of m) (isBlock_of m).

(** The spans of a text, in the order the loop meets them. *)
Definition scan (markdown : string) : list MathSpan :=
  map span_of (matches markdown).

Section GenerateMathML.

(** [new DOMParser().parseFromString(s, "text/xml").documentElement]. *)
Variable parseFromString : string -> node.
(** [new XMLSerializer().serializeToString(node)]. *)
Variable serializeToString : node -> string.

(** What the host page guarantees: the document element handed over by
    the parser is an element, and an element is never written as the empty
    string. *)
Definition host_ok : Prop :=
  (forall s, is_element (parseFromString s) = true)
  /\ (forall n, is_element n = true -> serializeToString n <> "").

(** The body of [try { ... }] for one match. *)
Definition try_block (katex : renderer) (m : groups) (st : state)
  : completion state :=
  let latex := latex_of m in
  let isBlock := isBlock_of m in
  rawRender <- katex latex isBlock ;;
  match math_match rawRender with
  | Some mathMatch0 =>
      let mathRoot := parseFromString mathMatch0 in
      let mathRoot := normalize mathRoot in
      let cleanMathML := serializeToString mathRoot in
      let output1 :=
        if (0 <? count st)%nat then output st ++ blank_line else output st in
      Return (mkState (output1 ++ cleanMathML) (S (count st)) (console st))
  | None => Return st
  end.

(** What the markup of one math element becomes: parsed, cleaned and
    written back. *)
Definition clean (mathMatch0 : string) : string :=
  serializeToString (normalize (parseFromString mathMatch0)).

(** What the [try] block works out for one match before it touches
    [output] and [count]: the cleaned markup, nothing when the rendered
    markup holds no math element, or the renderer's throw. *)
Definition attempt (katex : renderer) (m : groups)
  : completion (option string) :=
  rawRender <- katex (latex_of m) (isBlock_of m) ;;
  Return (option_map clean (math_match rawRender)).

(** The turn for [m] writes the fragment [c]. *)
Definition writes (katex : renderer) (m : groups) (c : string) : Prop :=
  attempt katex m = Return (Some c).

(** The turn for [m] writes nothing: the renderer throws, or its markup
    holds no math element. *)
Definition fails (katex : renderer) (m : groups) : Prop :=
  (exists e, attempt katex m = Throw e) \/ attempt katex m = Return None.

(** The cleaned fragments of the matches whose turn succeeds, in order. *)
Definition fragments (katex : renderer) (ms : list groups) : list string :=
  flat_map (fun m => match attempt katex m with
                     | Return (Some c) => [c]
                     | _ => []
                     end) ms.

(** The warnings of the matches whose turn ends in the [catch] block. *)
Definition warnings (katex : renderer) (ms : list groups) : list warning :=
  flat_map (fun m => match attempt katex m with
                     | Throw e => [("Error converting equation to MathML", e)]
                     | _ => []
                     end) ms.

(** One turn of the loop: [try { ... } catch (e) { console.warn(...) }]. *)
Definition iteration (katex : renderer) (m : groups) (st : state) : state :=
  match try_block katex m st with
  | Return st' => st'
  | Throw e =>
      mkState (output st) (count st)
        (console st ++ [("Error converting equation to MathML", e)])
  end.

(** [while ((match = latexRegex.exec(markdown)) !== null) { ... }], from
    the unread part of [markdown]. *)
Equations? scan_loop (katex : renderer) (unread : string) (st : state)
  : state by wf (String.length unread) lt :=
  scan_loop katex unread st with inspect (exec unread) := {
    | exist _ (Some (m, rest)) _ => scan_loop katex rest (iteration katex m st)
    | exist _ None _ => st }.
Proof. eapply exec_shorter; eauto. Qed.

(** [generateMathML(markdown)], given what [window.katex] holds ([None]
    when it is missing).  Yields how the call completes and the warnings
    it wrote to the console. *)
Definition generateMathML (katex : option renderer) (markdown : string)
  : completion string * list warning :=
  match katex with
  | None => (Return "KaTeX library not found.", [])
  | Some k =>
      let st := scan_loop k markdown (mkState "" 0 []) in
      (Return (if output st =? "" then "No mathematical formulas detected."
               else output st),
       console st)
  end.

End GenerateMathML.

End Pipeline.

Import Regex Dom Pipeline.

(** A host page for worked examples: a serializer that writes a tree in
    the usual angle-bracket form, and a parser that knows the few
    fragments the examples use and answers with an error document
    otherwise. *)
Module Host.

Definition quote : ascii := "034"%char.

Fixpoint write_attributes (attrs : list (string * string)) : string :=
  match attrs with
  | [] => ""
  | (k, v) :: rest =>
      " " ++ k ++ "=" ++ String quote (v ++ String quote "")
      ++ write_attributes rest
  end.

Fixpoint serializeToString (n : node) : string :=
  match n with
  | Element t a [] => "<" ++ t ++ write_attributes a ++ "/>"
  | Element t a k =>
      "<" ++ t ++ write_attributes a ++ ">"
      ++ String.concat "" (map serializeToString k)
      ++ "</" ++ t ++ ">"
  | CharacterData d => d
  end.

Definition mi (x : string) : node := Element "mi" [] [CharacterData x].

Definition parseFromString (s : string) : node :=
  if s =? "<math><semantics><mrow><mi>a</mi></mrow><annotation>a</annotation></semantics></math>"
  then Element "math" []
         [Element "semantics" []
            [Element "mrow" [] [mi "a"];
             Element "annotation" [] [CharacterData "a"]]]
  else if s =? "<math><semantics><mrow><mi>b</mi></mrow><annotation>b</annotation></semantics></math>"
  then Element "math" []
         [Element "semantics" []
            [Element "mrow" [] [mi "b"];
             Element "annotation" [] [CharacterData "b"]]]
  else Element "parsererror" [] [CharacterData s].

(** A renderer that wraps its argument the way KaTeX does and throws on
    the payload ["b"] when [fail_b] is set. *)
Definition echo (fail_b : bool) : renderer :=
  fun latex _ =>
    match latex with
    | undefined => Throw "KaTeX can only parse string typed expression"
    | str x =>
        if fail_b && (x =? "b") then Throw "ParseError"
        else Return ("<span class=katex><math><semantics><mrow><mi>" ++ x
                     ++ "</mi></mrow><annotation>" ++ x
                     ++ "</annotation></semantics></math></span>")
    end.

(** A renderer whose markup holds no math element. *)
Definition mathless : renderer := fun _ _ => Return "<span>x</span>".

(** The white space of [trim] among the code units below 256: tab, line
    feed, vertical tab, form feed, carriage return, space and no-break
    space. *)
Definition white_space (c : ascii) : bool :=
  let n := nat_of_ascii c in
  ((9 <=? n) && (n <=? 13) || (n =? 32) || (n =? 160))%nat.

End Host.

(* ===================================================================== *)
(** ** The clean-up as tree transforms *)
(* ===================================================================== *)

(** The two loops over live collections, written as one pass over the
    tree: what they are compared with below. *)
Module TreeSpec.

#[local] Open Scope list_scope.

(** Every descendant named [tag] is left out, with its subtree. *)
Fixpoint strip (tag : string) (n : node) : node :=
  match n with
  | Element t a k =>
      Element t a
        (flat_map (fun c => if has_tag tag c then [] else [strip tag c]) k)
  | CharacterData _ => n
  end.

(** Every descendant named [tag] gives way to its child nodes, themselves
    treated the same way. *)
Fixpoint splice (tag : string) (n : node) : node :=
  match n with
  | Element t a k =>
      Element t a
        (flat_map (fun c => if has_tag tag c then childNodes (splice tag c)
                            else [splice tag c]) k)
  | CharacterData _ => n
  end.

(** The character data of a tree, node by node in document order. *)
Fixpoint data_of (n : node) : list string :=
  match n with
  | Element _ _ k => flat_map data_of k
  | CharacterData d => [d]
  end.

End TreeSpec.

(** What the scan is compared with below. *)
Module ScanSpec.

(** The text captured by a match, whichever group holds it. *)
Definition captured (m : groups) : string :=
  match group1 m, group2 m with
  | str body, _ => body
  | undefined, str body => body
  | undefined, undefined => EmptyString
  end.

(** The texts [bodies] stand in [s] one after the other, without
    overlap. *)
Inductive in_order : list string -> string -> Prop :=
| in_order_nil s : in_order [] s
| in_order_cons body bodies before after :
    in_order bodies after ->
    in_order (body :: bodies) (before ++ body ++ after).

End ScanSpec.

(* ===================================================================== *)
(** ** Saving the results: [handleDownload] and [handleDownloadAll] *)
(* ===================================================================== *)

Module Archive.

(** The part of a [File] the component reads. *)
Record File : Type := mkFile { name : string; type : string }.

Record UploadedFile : Type := mkUpload {
  id : string;
  previewUrl : string;
  file : File;
  base64 : string;
  mimeType : string
}.

Record ResultItem : Type := mkResult { imageId : string; markdown : string }.

(** [[^/.]]. *)
Definition extension_char (c : ascii) : bool :=
  negb (c =? "/")%char && negb (c =? ".")%char.

(** [[^/.]+$] read at the cursor: the rest of the text is not empty and
    holds neither a slash nor a dot. *)
Fixpoint extension_run (s : string) : bool :=
  match s with
  | EmptyString => false
  | String c EmptyString => extension_char c
  | String c s' => extension_char c && extension_run s'
  end.

(** [/\.[^/.]+$/] read at the cursor. *)
Definition extension_here (s : string) : bool :=
  match s with
  | String "."%char s' => extension_run s'
  | _ => false
  end.

(** [name.replace(/\.[^/.]+$/, "")]: the leftmost match, which runs to
    the end of the text, is taken out. *)
Fixpoint strip_extension (s : string) : string :=
  if extension_here s then EmptyString
  else
    match s with
    | EmptyString => EmptyString
    | String c s' => String c (strip_extension s')
    end.

(** A number as [usedNames] can hold it. *)
Inductive jsnum : Type :=
| Num (n : nat)
| NaN.

(** What [Object.prototype] holds under a key. *)
Inductive inherited : Type :=
| Method          (* a built-in function *)
| ProtoAccessor.  (* the accessor [__proto__] *)

(** The keys that an object created by [{}] inherits. *)
Definition object_prototype (k : string) : option inherited :=
  if k =? "__proto__" then Some ProtoAccessor
  else if existsb (String.eqb k)
            ["constructor"; "hasOwnProperty"; "isPrototypeOf";
             "propertyIsEnumerable"; "toLocaleString"; "toString"; "valueOf";
             "__defineGetter__"; "__defineSetter__";
             "__lookupGetter__"; "__lookupSetter__"]
  then Some Method
  else None.

(** The own properties of [usedNames], the latest first. *)
Definition own_properties : Type := list (string * jsnum).

Fixpoint lookup (k : string) (own : own_properties) : option jsnum :=
  match own with
  | [] => None
  | (k', v) :: rest => if k' =? k then Some v else lookup k rest
  end.

(** What reading [usedNames[k]] gives. *)
Inductive value : Type :=
| VNum (x : jsnum)
| VFunction
| VObjectPrototype
| VUndefined.

(** [usedNames[k]]: an own property first, then the prototype. *)
Definition get (usedNames : own_properties) (k : string) : value :=
  match lookup k usedNames with
  | Some x => VNum x
  | None =>
      match object_prototype k with
      | Some Method => VFunction
      | Some ProtoAccessor => VObjectPrototype
      | None => VUndefined
      end
  end.

(** [usedNames[k] = x]: an own property is written, except under
    [__proto__], whose setter ignores a number. *)
Definition put (usedNames : own_properties) (k : string) (x : jsnum)
  : own_properties :=
  match object_prototype k with
  | Some ProtoAccessor => usedNames
  | _ => (k, x) :: usedNames
  end.

(** ToBoolean. *)
Definition is_truthy (v : value) : bool :=
  match v with
  | VNum (Num 0) => false
  | VNum (Num (S _)) => true
  | VNum NaN => false
  | VFunction => true
  | VObjectPrototype => true
  | VUndefined => false
  end.

(** ToNumeric: a function, an object and [undefined] all give [NaN]. *)
Definition to_numeric (v : value) : jsnum :=
  match v with
  | VNum x => x
  | _ => NaN
  end.

(** [x + 1]; the counts stay far below 2^53, where the sum is exact. *)
Definition increment (x : jsnum) : jsnum :=
  match x with
  | Num n => Num (S n)
  | NaN => NaN
  end.

(** The decimal digits of a count. *)
Definition decimal (n : nat) : string :=
  DecimalString.NilEmpty.string_of_uint (Nat.to_uint n).

(** The record of used names counts the uses of each base name that it
    does not inherit: the invariant of the loop. *)
Definition counts (used : own_properties) (seen : list string) : Prop :=
  forall b,
    object_prototype b = None ->
    lookup b used
    = match count_occ string_dec seen b with
      | 0 => None
      | S k => Some (Num (S k))
      end.

(** The names the loop is expected to give to a sequence of base names,
    [seen] being the base names met before: the first use of a name keeps
    it, the use number [k + 1] gets the suffix [_] and [k + 1]. *)
Fixpoint numbered (seen bases : list string) : list string :=
  match bases with
  | [] => []
  | b :: rest =>
      let k := count_occ string_dec seen b in
      (if (k =? 0)%nat then b else b ++ "_" ++ decimal (S k))
        :: numbered (b :: seen) rest
  end.

Section Naming.

(** How the engine prints a built-in function; no run of the loop reads
    it. *)
Variable function_text : string.

(** ToString, as a template literal applies it. *)
Definition to_string (v : value) : string :=
  match v with
  | VNum (Num n) => decimal n
  | VNum NaN => "NaN"
  | VFunction => function_text
  | VObjectPrototype => "[object Object]"
  | VUndefined => "undefined"
  end.

(** [if (usedNames[baseName]) { usedNames[baseName]++;
        baseName = `${baseName}_${usedNames[baseName]}`; }
     else { usedNames[baseName] = 1; }]:
    the record after the statement and the name that is used. *)
Definition claim_name (usedNames : own_properties) (baseName : string)
  : own_properties * string :=
  if is_truthy (get usedNames baseName) then
    let usedNames' :=
      put usedNames baseName (increment (to_numeric (get usedNames baseName))) in
    (usedNames', baseName ++ "_" ++ to_string (get usedNames' baseName))
  else
    (put usedNames baseName (Num 1), baseName).

(** [let baseName = "page"; if (image) baseName = image.file.name.replace(...)],
    for [image = images.find(img => img.id === result.imageId)]. *)
Definition base_name (images : list UploadedFile) (result : ResultItem)
  : string :=
  match find (fun img => id img =? imageId result) images with
  | Some image => strip_extension (name (file image))
  | None => "page"
  end.

Variable parseFromString : string -> node.
Variable serializeToString : node -> string.

(** The variables of [handleDownloadAll] that its loop updates: the
    record of used names, the calls [zip.file(name, content)] made so
    far, and the warnings written to the console. *)
Record zipping : Type := mkZipping {
  usedNames : own_properties;
  files : list (string * string);
  warned : list warning
}.

(** The body of [results.forEach((result) => { ... })]. *)
Definition add_result (katex : option renderer) (images : list UploadedFile)
  (z : zipping) (result : ResultItem) : completion zipping :=
  let baseName := base_name images result in
  let (usedNames', baseName') := claim_name (usedNames z) baseName in
  let (outcome, log) :=
    generateMathML parseFromString serializeToString katex (markdown result) in
  mathmlContent <- outcome ;;
  Return (mkZipping usedNames'
            (files z ++ [(baseName' ++ ".xml", mathmlContent)])
            (warned z ++ log)).

(** [results.forEach(...)], which stops at the first throw. *)
Fixpoint forEach (katex : option renderer) (images : list UploadedFile)
  (results : list ResultItem) (z : zipping) : completion zipping :=
  match results with
  | [] => Return z
  | result :: rest =>
      z' <- add_result katex images z result ;;
      forEach katex images rest z'
  end.

(** [handleDownloadAll], up to the call of [zip.generateAsync]: the files
    handed to the archive, in the order of the calls. *)
Definition archive_files (katex : option renderer)
  (images : list UploadedFile) (results : list ResultItem)
  : completion zipping :=
  forEach katex images results (mkZipping [] [] []).

(** The tabs of one result. *)
Inductive tab : Type := image | preview | comparison | source | mathml.

(** What [downloadBlob(new Blob([content], { type }), filename)] is given. *)
Record download : Type := mkDownload {
  filename : string;
  content : string;
  blob_type : string
}.

(** The effect [if (result && activeTab === 'mathml' &&
    mathmlContent === null) setMathmlContent(generateMathML(result.markdown))]
    of one [SingleResultView]: the MathML text after it and the warnings
    written to the console. *)
Definition mathml_effect (katex : option renderer)
  (result : option ResultItem) (activeTab : tab)
  (mathmlContent : option string)
  : completion (option string) * list warning :=
  match result, activeTab, mathmlContent with
  | Some r, mathml, None =>
      let (generated, log) :=
        generateMathML parseFromString serializeToString
          katex (markdown r) in
      (content <- generated ;; Return (Some content), log)
  | _, _, _ => (Return mathmlContent, [])
  end.

(** [handleDownload], for the props and state of one [SingleResultView]:
    what is downloaded ([None] when nothing is) and the warnings written
    to the console.  A throw of [generateMathML] would leave the
    handler. *)
Definition handleDownload (katex : option renderer)
  (result : option ResultItem) (image : UploadedFile) (activeTab : tab)
  (mathmlContent : option string)
  : completion (option download) * list warning :=
  match result with
  | None => (Return None, [])
  | Some r =>
      let baseName := strip_extension (name (file image)) in
      match activeTab with
      | mathml =>
          let (generated, log) :=
            match mathmlContent with
            | Some edited => (Return edited, [])
            | None =>
                generateMathML parseFromString serializeToString
                  katex (markdown r)
            end in
          (content <- generated ;;
           Return (Some (mkDownload (baseName ++ ".xml") content
                           "application/xml;charset=utf-8")),
           log)
      | _ =>
          (Return (Some (mkDownload (baseName ++ ".md") (markdown r)
                           "text/markdown;charset=utf-8")),
           [])
      end
  end.

End Naming.

(** [images.map((image, index) => { const result =
       results.find(r => r.imageId === image.id); ... })] of
    [ResultDisplay]: each image with the result shown next to it. *)
Definition result_rows (images : list UploadedFile)
  (results : list ResultItem) : list (UploadedFile * option ResultItem) :=
  map (fun image =>
         (image, find (fun r => imageId r =? id image) results)) images.

End Archive.

(* ===================================================================== *)
(** ** The answer of the model: [convertImageToMarkdown] *)
(* ===================================================================== *)

Module Service.

(** A thrown value as the callers tell it apart: an [Error] with its
    message, or anything else. *)
Inductive thrown : Type :=
| ErrorObject (message : string)
| OtherValue.

(** How an awaited call ends. *)
Inductive settled (A : Type) : Type :=
| Fulfilled (a : A)
| Rejected (e : thrown).
Arguments Fulfilled {A} _.
Arguments Rejected {A} _.

(** One call of [console.error(message, e)]. *)
Definition console_error : Type := (string * thrown)%type.

Section CleanText.

(** The code units that [trim] removes (white space and line
    terminators). *)
Variable white_space : ascii -> bool.

(** [s] is made of such code units only. *)
Fixpoint all_white (s : string) : bool :=
  match s with
  | EmptyString => true
  | String c s' => white_space c && all_white s'
  end.

(** [s] holds no line feed. *)
Fixpoint single_line (s : string) : bool :=
  match s with
  | EmptyString => true
  | String c s' => negb (c =? LF)%char && single_line s'
  end.

(** [s.trimStart()]. *)
Fixpoint trimStart (s : string) : string :=
  match s with
  | EmptyString => EmptyString
  | String c s' => if white_space c then trimStart s' else s
  end.

(** [s.trimEnd()]. *)
Fixpoint trimEnd (s : string) : string :=
  match s with
  | EmptyString => EmptyString
  | String c s' =>
      match trimEnd s' with
      | EmptyString => if white_space c then EmptyString else String c EmptyString
      | kept => String c kept
      end
  end.

(** [s.trim()]. *)
Definition trim (s : string) : string := trimEnd (trimStart s).

(** [s.replace(/^p/, '')] for a literal [p]. *)
Definition strip_opening (p s : string) : string :=
  if starts_with p s then drop (String.length p) s else s.

(** The closing fence ["\n```"]. *)
Definition closing_fence : string := String LF "```".

(** [s.replace(/\n```$/, '')]: the leftmost place where the closing fence
    is followed by the end of the text. *)
Fixpoint strip_closing (s : string) : string :=
  if s =? closing_fence then EmptyString
  else
    match s with
    | EmptyString => EmptyString
    | String c s' => String c (strip_closing s')
    end.

(** [let cleanText = response.text.trim(); if (...) { ... } else if (...)
    { ... }; return cleanText]. *)
Definition clean_text (text : string) : string :=
  let cleanText := trim text in
  if starts_with "```markdown" cleanText then
    strip_closing (strip_opening ("```markdown" ++ String LF "") cleanText)
  else if starts_with "```" cleanText then
    strip_closing (strip_opening ("```" ++ String LF "") cleanText)
  else cleanText.

(** [await ai.models.generateContent({...})], seen through the two
    arguments that vary and the [text] of the response ([None] for
    [undefined]). *)
Variable generateContent : string -> string -> settled (option string).

(** The body of [try { ... }]. *)
Definition try_convert (base64Data mimeType : string) : settled string :=
  match generateContent base64Data mimeType with
  | Rejected e => Rejected e
  | Fulfilled text =>
      match text with
      | None => Rejected (ErrorObject "No text returned from the model.")
      | Some EmptyString =>
          Rejected (ErrorObject "No text returned from the model.")
      | Some t => Fulfilled (clean_text t)
      end
  end.

(** [convertImageToMarkdown(base64Data, mimeType)]: how the promise
    settles, and what is written to the console. *)
Definition convertImageToMarkdown (base64Data mimeType : string)
  : settled string * list console_error :=
  match try_convert base64Data mimeType with
  | Fulfilled cleanText => (Fulfilled cleanText, [])
  | Rejected error => (Rejected error, [("Gemini API Error:", error)])
  end.

End CleanText.

End Service.

(* ===================================================================== *)
(** ** The state of the page: [App] *)
(* ===================================================================== *)

Module App.

Import Archive Service.

Inductive AppState : Type := IDLE | PROCESSING | SUCCESS | ERROR.

Record Progress : Type :=
  mkProgress { current : nat; total : nat; etr : BinNums.Z }.

(** The state variables of [App]. *)
Record model : Type := mkModel {
  appState : AppState;
  images : list UploadedFile;
  results : list ResultItem;
  errorMsg : option string;
  progress : option Progress
}.

(** [handleImagesSelected(newFiles)], on the state variables. *)
Definition handleImagesSelected (newFiles : list UploadedFile) (m : model)
  : model :=
  mkModel IDLE (images m ++ newFiles) (results m) None (progress m).

(** [handleRemoveImage(id)]. *)
Definition handleRemoveImage (removed : string) (m : model) : model :=
  mkModel (appState m)
    (filter (fun img => negb (id img =? removed)) (images m))
    (filter (fun res => negb (imageId res =? removed)) (results m))
    (errorMsg m) (progress m).

(** [handleClearAll()]. *)
Definition handleClearAll (m : model) : model := mkModel IDLE [] [] None None.

(** The text of an error item. *)
Definition error_markdown (e : thrown) : string :=
  "> **Error processing Page**" ++ String LF
    ("> " ++ match e with
             | ErrorObject message => message
             | OtherValue => "Unknown error"
             end).

(** Every result belongs to an image of the queue. *)
Definition attached (m : model) : Prop :=
  forall r, In r (results m) ->
            exists img, In img (images m) /\ id img = imageId r.

Section ProcessImages.

(** [convertImageToMarkdown(img.base64, img.mimeType)], awaited: how it
    settles, and what it wrote to the console before it settled. *)
Variable convert : string -> string -> settled string * list console_error.

(** [Math.ceil((avgTimePerItem * remainingItems) / 1000)] after the turn
    that completes item [completed]: it depends on the clock, which is
    left open. *)
Variable etrSeconds : nat -> BinNums.Z.

(** The item that the turn for [img] appends to [results]. *)
Definition item_of (img : UploadedFile) : ResultItem :=
  match fst (convert (base64 img) (mimeType img)) with
  | Fulfilled markdown => mkResult (id img) markdown
  | Rejected e => mkResult (id img) (error_markdown e)
  end.

(** What the console receives during the turn for [img]: what the
    conversion wrote, then the entry of the [catch] block when the
    conversion threw. *)
Definition logged_for (img : UploadedFile) : list console_error :=
  app (snd (convert (base64 img) (mimeType img)))
      match fst (convert (base64 img) (mimeType img)) with
      | Fulfilled _ => []
      | Rejected e => [("Error processing image " ++ id img, e)]
      end.

(** What a run of [processImages] carries from turn to turn. *)
Record run : Type := mkRun {
  run_results : list ResultItem;
  run_progress : list Progress;
  run_errors : list console_error;
  completed : nat
}.

(** One turn of [for (const img of images)]: the inner [try] and [catch],
    then the count and the progress; with the throw that leaves the turn,
    if any. *)
Definition process_one (n : nat) (r : run) (img : UploadedFile)
  : run * option thrown :=
  let (settlement, written) := convert (base64 img) (mimeType img) in
  let (item, logged) :=
    match settlement with
    | Fulfilled markdown => (mkResult (id img) markdown, [])
    | Rejected e =>
        (mkResult (id img) (error_markdown e),
         [("Error processing image " ++ id img, e)])
    end in
  let completed' := S (completed r) in
  (mkRun (run_results r ++ [item])
         (run_progress r ++ [mkProgress completed' n (etrSeconds completed')])
         (run_errors r ++ (written ++ logged)%list)
         completed',
   None).

(** [for (const img of images) { ... }], which a throw leaves at once. *)
Fixpoint process_all (n : nat) (imgs : list UploadedFile) (r : run)
  : run * option thrown :=
  match imgs with
  | [] => (r, None)
  | img :: rest =>
      match process_one n r img with
      | (r', None) => process_all n rest r'
      | (r', Some err) => (r', Some err)
      end
  end.

(** [err.message || "Failed to process images. Please try again."]. *)
Definition failure_message (err : thrown) : string :=
  match err with
  | ErrorObject EmptyString => "Failed to process images. Please try again."
  | ErrorObject message => message
  | OtherValue => "Failed to process images. Please try again."
  end.

(** [processImages()], for a run in which no other handler changes the
    state between two turns: the state it leaves, every value it gave
    [setProgress] before the final [null], and the console. *)
Definition processImages (m : model)
  : model * list Progress * list console_error :=
  match images m with
  | [] => (m, [], [])
  | _ =>
      let n := length (images m) in
      match process_all n (images m)
              (mkRun [] [mkProgress 0 n BinNums.Z0] [] 0) with
      | (r, None) =>
          (mkModel SUCCESS (images m) (run_results r) None None,
           run_progress r, run_errors r)
      | (r, Some err) =>
          (mkModel ERROR (images m) (run_results r)
                   (Some (failure_message err)) None,
           run_progress r, run_errors r)
      end
  end.

End ProcessImages.

End App.

(** A page for worked examples. *)
Module Samples.

Import Archive Service App.

(** Two uploads called [scan.png] and one called [scan_2.jpg], with one
    result each. *)
Definition upload (i n : string) : UploadedFile :=
  mkUpload i "" (mkFile n "image/png") "" "image/png".

Definition queue : list UploadedFile :=
  [upload "A" "scan.png"; upload "B" "scan.png"; upload "C" "scan_2.jpg"].

Definition rA : ResultItem := mkResult "A" "$a$".
Definition rB : ResultItem := mkResult "B" "$b$".
Definition rC : ResultItem := mkResult "C" "no formula".

(** A model that answers with spaces for one image type, with nothing for
    another and with a fenced formula otherwise. *)
Definition sample_model (data mime : string) : settled (option string) :=
  if mime =? "image/gif" then Fulfilled (Some "  ")
  else if mime =? "image/bmp" then Fulfilled None
  else Fulfilled (Some "$x$").

Definition sample_convert (data mime : string)
  : settled string * list console_error :=
  convertImageToMarkdown Host.white_space sample_model data mime.

Definition sample_page : model :=
  mkModel IDLE
    [mkUpload "A" "" (mkFile "a.png" "image/png") "" "image/png";
     mkUpload "B" "" (mkFile "b.bmp" "image/bmp") "" "image/bmp"]
    [] None None.

End Samples.

(* ===================================================================== *)
(** * Properties of the scanner *)
(* ===================================================================== *)

Lemma matches_step s :
  matches s = match exec s with
              | Some (m, rest) => m :: matches rest
              | None => []
              end.
Proof.
  funelim (matches s);
    match goal with E : exec _ = _ |- _ => rewrite E end; reflexivity.
Qed.

Lemma append_assoc (a b c : string) : (a ++ b) ++ c = a ++ (b ++ c).
Proof. induction a as [|x a IH]; simpl; [reflexivity|rewrite IH; reflexivity]. Qed.

Lemma starts_with_app p s : starts_with p (p ++ s) = true.
Proof.
  induction p as [|a p IH]; simpl; [reflexivity|].
  rewrite Ascii.eqb_refl, IH. reflexivity.
Qed.

Lemma starts_with_split p s :
  starts_with p s = true -> s = p ++ drop (String.length p) s.
Proof.
  revert s; induction p as [|a p IH]; intros s; simpl.
  - reflexivity.
  - destruct s as [|b s]; [discriminate|].
    intros H. apply andb_prop in H as [H1 H2].
    apply Ascii.eqb_eq in H1. subst b.
    rewrite <- (IH s H2). reflexivity.
Qed.

Lemma drop_app p s : drop (String.length p) (p ++ s) = s.
Proof. induction p as [|a p IH]; simpl; [destruct s; reflexivity|exact IH]. Qed.

(** The run read by the lazy quantifier and the text after the delimiter
    rebuild the text that was read: the run is exactly what stands before
    the delimiter. *)
Lemma lazy_until_split delim s run rest :
  lazy_until delim s = Some (run, rest) -> s = run ++ delim ++ rest.
Proof.
  revert run rest; induction s as [|c s IH]; intros run rest; simpl.
  - destruct (starts_with delim "") eqn:P; [|discriminate].
    intros H; inversion H; subst. simpl. apply (starts_with_split _ _ P).
  - destruct (starts_with delim (String c s)) eqn:P.
    + intros H; inversion H; subst. simpl. apply (starts_with_split _ _ P).
    + destruct (lazy_until delim s) as [[r1 r2]|] eqn:L; [|discriminate].
      intros H; inversion H; subst. simpl. rewrite <- (IH _ _ eq_refl).
      reflexivity.
Qed.

(** A delimiter that occurs is found, at its first occurrence or before. *)
Lemma lazy_until_finds delim a b :
  exists run rest,
    lazy_until delim (a ++ delim ++ b) = Some (run, rest)
    /\ String.length run <= String.length a.
Proof.
  induction a as [|c a (run & rest & IH & Hlen)].
  - exists "", b. simpl append.
    destruct (delim ++ b) as [|x y] eqn:E; simpl.
    + destruct delim; [simpl in E; subst b|discriminate]. simpl. auto.
    + rewrite <- E, starts_with_app, drop_app. auto.
  - simpl append. simpl lazy_until.
    destruct (starts_with delim (String c (a ++ delim ++ b))).
    + eexists _, _. split; [reflexivity|simpl; lia].
    + rewrite IH. eexists _, _. split; [reflexivity|simpl; lia].
Qed.

Lemma lazy_until_dollar_free s run rest :
  lazy_until "$" s = Some (run, rest) -> dollar_free run = true.
Proof.
  revert run rest; induction s as [|c s IH]; intros run rest; simpl.
  - discriminate.
  - rewrite andb_true_r, Ascii.eqb_sym.
    destruct (c =? "$")%char eqn:E.
    + intros H; inversion H; reflexivity.
    + destruct (lazy_until "$" s) as [[r1 r2]|] eqn:L; [|discriminate].
      intros H; inversion H; subst. simpl. rewrite E. simpl. eauto.
Qed.

Lemma lazy_until_block_dollar_free body rest :
  dollar_free body = true ->
  lazy_until "$$" (body ++ "$$" ++ rest) = Some (body, rest).
Proof.
  induction body as [|c body IH]; simpl.
  - intros _. reflexivity.
  - intros H. apply andb_prop in H as [H1 H2].
    apply negb_true_iff in H1. rewrite Ascii.eqb_sym, H1. simpl.
    specialize (IH H2). simpl in IH. rewrite IH. reflexivity.
Qed.

(** What a match array of the first alternative records. *)
Lemma block_alt_split s body rest :
  block_alt s = Some (body, rest) -> s = "$$" ++ body ++ "$$" ++ rest.
Proof.
  unfold block_alt. destruct (starts_with "$$" s) eqn:P; [|discriminate].
  intros L. apply lazy_until_split in L.
  rewrite (starts_with_split _ _ P). simpl String.length. rewrite L. reflexivity.
Qed.

(** What a match array of the second alternative records. *)
Lemma inline_alt_split s body rest :
  inline_alt s = Some (body, rest) ->
  s = "$" ++ body ++ "$" ++ rest /\ body <> "" /\ dollar_free body = true.
Proof.
  unfold inline_alt. destruct s as [|c s]; [discriminate|].
  destruct (Ascii.eqb_spec c "$") as [->|N].
  - destruct (starts_with "$" s) eqn:P; [discriminate|].
    intros L. split; [|split].
    + apply lazy_until_split in L. rewrite L. reflexivity.
    + intros ->. destruct s as [|c s]; [discriminate|].
      cbn [lazy_until] in L. rewrite P in L.
      destruct (lazy_until "$" s) as [[? ?]|]; discriminate.
    + eapply lazy_until_dollar_free; eauto.
  - destruct c as [[] [] [] [] [] [] [] []]; try discriminate. congruence.
Qed.

Lemma match_here_shape s m rest :
  match_here s = Some (m, rest) -> match_shape m.
Proof.
  unfold match_here.
  destruct (block_alt s) as [[b r]|] eqn:B.
  - intros H; inversion H; subst. apply (BlockForm _ b); reflexivity.
  - destruct (inline_alt s) as [[b r]|] eqn:I; [|discriminate].
    intros H; inversion H; subst.
    apply inline_alt_split in I as (_ & Hne & Hfree).
    apply (InlineForm _ b); [reflexivity|reflexivity|exact Hne|exact Hfree].
Qed.

Lemma exec_shape s m rest : exec s = Some (m, rest) -> match_shape m.
Proof.
  induction s as [|c s IH]; simpl.
  - discriminate.
  - destruct (match_here (String c s)) as [[m' r']|] eqn:E; [|exact IH].
    intros H; inversion H; subst. eapply match_here_shape; eauto.
Qed.

Lemma matches_shape s : Forall match_shape (matches s).
Proof.
  remember (String.length s) as n eqn:Hn.
  revert s Hn. induction n as [n IH] using lt_wf_ind. intros s ->.
  rewrite matches_step.
  destruct (exec s) as [[m rest]|] eqn:E; [|constructor].
  constructor.
  - eapply exec_shape; eauto.
  - eapply IH; [eapply exec_shorter; eauto|reflexivity].
Qed.

(** Text before the first dollar sign is skipped by [exec]. *)
Lemma exec_skip pre s :
  dollar_free pre = true -> exec (pre ++ s) = exec s.
Proof.
  induction pre as [|c pre IH]; simpl; [reflexivity|].
  intros H. apply andb_prop in H as [H1 H2]. apply negb_true_iff in H1.
  assert (M : match_here (String c (pre ++ s)) = None).
  { unfold match_here, block_alt, inline_alt. simpl starts_with.
    rewrite Ascii.eqb_sym, H1. simpl.
    destruct c as [[] [] [] [] [] [] [] []]; try reflexivity. discriminate. }
  rewrite M. apply IH. exact H2.
Qed.

Lemma exec_block_here body rest run rest' :
  lazy_until "$$" (body ++ "$$" ++ rest) = Some (run, rest') ->
  exec ("$$" ++ body ++ "$$" ++ rest)
  = Some (mkGroups (str run) undefined, rest').
Proof.
  intros L. simpl append. cbn [exec].
  unfold match_here, block_alt. cbn [starts_with drop].
  rewrite !Ascii.eqb_refl. simpl. simpl in L. rewrite L. reflexivity.
Qed.


(** The text consumed by one call of [exec]: skipped text holding no
    match, then a delimiter pair around the captured group. *)
Lemma exec_delimited s m rest :
  exec s = Some (m, rest) ->
  exists skipped body,
    (m = mkGroups (str body) undefined
     /\ s = skipped ++ "$$" ++ body ++ "$$" ++ rest)
    \/ (m = mkGroups undefined (str body)
        /\ s = skipped ++ "$" ++ body ++ "$" ++ rest).
Proof.
  induction s as [|c s IH]; simpl; [discriminate|].
  destruct (match_here (String c s)) as [[m' r']|] eqn:E.
  - intros H; inversion H; subst. exists "". unfold match_here in E.
    destruct (block_alt (String c s)) as [[b r]|] eqn:B.
    + inversion E; subst. exists b. left. split; [reflexivity|].
      apply block_alt_split. exact B.
    + destruct (inline_alt (String c s)) as [[b r]|] eqn:I; [|discriminate].
      inversion E; subst. exists b. right. split; [reflexivity|].
      apply inline_alt_split in I as [I _]. exact I.
  - intros H. destruct (IH H) as (skipped & body & [[Hm Hs]|[Hm Hs]]);
      exists (String c skipped), body; [left|right];
      (split; [exact Hm|simpl; rewrite Hs; reflexivity]).
Qed.

(** What the loop hands to the renderer, by the shape of the match: the
    captured text with the flag of its alternative, except for an empty
    first group. *)
Lemma span_of_shapes md m :
  In m (matches md) ->
  (exists body, m = mkGroups (str body) undefined /\ body <> ""
                /\ span_of m = mkSpan (str body) true)
  \/ (m = mkGroups (str "") undefined /\ span_of m = mkSpan undefined false)
  \/ (exists body, m = mkGroups undefined (str body) /\ body <> ""
                   /\ span_of m = mkSpan (str body) false).
Proof.
  intros Hin. pose proof (matches_shape md) as Hall.
  rewrite Forall_forall in Hall.
  destruct m as [g1 g2].
  destruct (Hall _ Hin) as [b H1 H2|b H1 H2 Hne Hfree]; simpl in *; subst.
  - destruct b as [|c b].
    + right; left. split; reflexivity.
    + left. exists (String c b). repeat split. discriminate.
  - right; right. exists b. repeat split. exact Hne.
Qed.

(** C6, as stated, fails: a single dollar sign that stands before a
    [$$...$$] pair and has no partner of its own takes the first dollar
    sign of the pair as its closing delimiter; the scan, which never goes
    back, then reads the rest of the pair as an inline span.  No block
    span comes out. *)
Lemma pair_read_as_inline_counterexample :
  scan "cost $5 and $$a+b$$"
  = [mkSpan (str "5 and ") false; mkSpan (str "a+b") false]
  /\ ~ In (mkSpan (str "a+b") true) (scan "cost $5 and $$a+b$$")
  /\ ~ (forall before body after,
          body <> "" -> dollar_free body = true ->
          In (mkSpan (str body) true)
             (scan (before ++ "$$" ++ body ++ "$$" ++ after))).
Proof.
  assert (E : scan "cost $5 and $$a+b$$"
              = [mkSpan (str "5 and ") false; mkSpan (str "a+b") false])
    by (vm_compute; reflexivity).
  assert (N : ~ In (mkSpan (str "a+b") true) (scan "cost $5 and $$a+b$$")).
  { rewrite E. intros [H|[H|[]]]; discriminate H. }
  split; [exact E|]. split; [exact N|].
  intros H. apply N.
  apply (H "cost $5 and " "a+b" ""); [discriminate|reflexivity].
Qed.

(** C6, amended. Scanning ["$$a+b$$"] yields one span, a block span with
    payload ["a+b"].  In general, from wherever the scan stands: where a
    double dollar sign is the first dollar sign met and a closing double
    dollar sign follows, the match is made by the block alternative
    (group 1 is set, group 2 is not) and never by the inline one; when
    the text in between holds no dollar sign, that text is captured and
    the scan goes on after the closing pair; when it is not empty either,
    the span handed to the renderer is a block span with that text as
    payload. *)
Theorem block_form_preferred :
  scan "$$a+b$$" = [mkSpan (str "a+b") true]
  /\ matches "$$a+b$$" = [mkGroups (str "a+b") undefined]
  /\ (forall pre body rest,
        dollar_free pre = true ->
        exists run rest',
          exec (pre ++ "$$" ++ body ++ "$$" ++ rest)
          = Some (mkGroups (str run) undefined, rest')
          /\ String.length run <= String.length body)
  /\ (forall pre body rest,
        dollar_free pre = true -> dollar_free body = true ->
        matches (pre ++ "$$" ++ body ++ "$$" ++ rest)
        = mkGroups (str body) undefined :: matches rest)
  /\ (forall pre body rest,
        dollar_free pre = true -> dollar_free body = true -> body <> "" ->
        scan (pre ++ "$$" ++ body ++ "$$" ++ rest)
        = mkSpan (str body) true :: scan rest).
Proof.
  assert (Hmatch : forall pre body rest,
             dollar_free pre = true -> dollar_free body = true ->
             matches (pre ++ "$$" ++ body ++ "$$" ++ rest)
             = mkGroups (str body) undefined :: matches rest).
  { intros pre body rest Hpre Hbody.
    rewrite matches_step, exec_skip by exact Hpre.
    rewrite (exec_block_here body rest body rest); [reflexivity|].
    apply lazy_until_block_dollar_free. exact Hbody. }
  split; [vm_compute; reflexivity|].
  split; [vm_compute; reflexivity|].
  split; [|split; [exact Hmatch|]].
  - intros pre body rest Hpre.
    destruct (lazy_until_finds "$$" body rest) as (run & rest' & L & Hlen).
    exists run, rest'. split; [|exact Hlen].
    rewrite exec_skip by exact Hpre. apply exec_block_here. exact L.
  - intros pre body rest Hpre Hbody Hne.
    unfold scan. rewrite (Hmatch pre body rest Hpre Hbody). simpl. f_equal.
    unfold span_of, latex_of, isBlock_of, js_or. simpl.
    apply String.eqb_neq in Hne. rewrite Hne. reflexivity.
Qed.

Lemma block_form_preferred_witness :
  dollar_free "see " = true /\ dollar_free "x^2" = true /\ "x^2" <> ""
  /\ scan ("see " ++ "$$" ++ "x^2" ++ "$$" ++ " and $y$")
     = mkSpan (str "x^2") true :: scan " and $y$".
Proof.
  assert (N : "x^2" <> "") by discriminate.
  split; [reflexivity|]. split; [reflexivity|]. split; [exact N|].
  apply (proj2 (proj2 (proj2 (proj2 block_form_preferred))));
    [reflexivity|reflexivity|exact N].
Defined.

(** C7, at the text ["$$$$"]: the first alternative matches with an empty
    group 1, which is falsy, so the loop binds [latex] to [undefined] and
    [isBlock] to [false]: the span handed to the renderer is neither a
    block span nor one with the empty string as payload. *)
Theorem empty_block_span_is_undefined_inline :
  matches "$$$$" = [mkGroups (str "") undefined]
  /\ scan "$$$$" = [mkSpan undefined false].
Proof. split; vm_compute; reflexivity. Qed.

(** C10. A span matched by the single-dollar alternative has a payload
    that is not empty and holds no dollar sign, and the loop hands it to
    the renderer as an inline span; no span handed over as inline has the
    empty string as payload.  Scanning ["$$"] alone yields no span, while
    the block alternative can capture the empty string. *)
Theorem inline_payload_nonempty :
  (forall md m body,
      In m (matches md) -> group2 m = str body ->
      body <> "" /\ dollar_free body = true
      /\ span_of m = mkSpan (str body) false)
  /\ (forall md m,
        In m (matches md) -> isBlock (span_of m) = false ->
        rawLatex (span_of m) <> str "")
  /\ scan "$$" = []
  /\ matches "$$$$" = [mkGroups (str "") undefined].
Proof.
  split; [|split; [|split; vm_compute; reflexivity]].
  - intros md m body Hin Hg2.
    pose proof (matches_shape md) as Hall.
    rewrite Forall_forall in Hall. destruct (Hall m Hin) as [b H1 H2|b H1 H2 Hne Hfree].
    + congruence.
    + rewrite Hg2 in H2. inversion H2; subst b.
      split; [exact Hne|]. split; [exact Hfree|].
      unfold span_of, latex_of, isBlock_of, js_or. rewrite H1, Hg2. reflexivity.
  - intros md m Hin Hb.
    pose proof (matches_shape md) as Hall.
    rewrite Forall_forall in Hall.
    unfold span_of, latex_of, isBlock_of, js_or in *. simpl in *.
    destruct (Hall m Hin) as [b H1 H2|b H1 H2 Hne Hfree].
    + rewrite Hb, H2. discriminate.
    + rewrite H1, H2. simpl. intros E. inversion E. congruence.
Qed.

Lemma inline_payload_nonempty_witness :
  In (mkGroups undefined (str "x")) (matches "a $x$ b")
  /\ "x" <> "" /\ dollar_free "x" = true
  /\ span_of (mkGroups undefined (str "x")) = mkSpan (str "x") false.
Proof.
  assert (Hin : In (mkGroups undefined (str "x")) (matches "a $x$ b"))
    by (vm_compute; left; reflexivity).
  split; [exact Hin|].
  exact (proj1 inline_payload_nonempty "a $x$ b" _ "x" Hin eq_refl).
Defined.

(* ===================================================================== *)
(** * Properties of the clean-up of one tree *)
(* ===================================================================== *)

Section TreeFacts.

#[local] Open Scope list_scope.

(** Decide a comparison of two literal names. *)
Ltac literal_eqb :=
  repeat match goal with
  | |- context [String.eqb ?a ?b] =>
      let v := eval vm_compute in (String.eqb a b) in
      match v with
      | true => change (String.eqb a b) with true
      | false => change (String.eqb a b) with false
      end
  end.

Lemma remove_annotations_step r :
  remove_annotations r
  = if (0 <? length (getElementsByTagName "annotation" r))%nat
    then remove_annotations (edit_first "annotation" detached r)
    else r.
Proof.
  funelim (remove_annotations r);
    match goal with E : (_ <? _)%nat = _ |- _ => rewrite E end; reflexivity.
Qed.

Lemma unwrap_semantics_step r :
  unwrap_semantics r
  = if (0 <? length (getElementsByTagName "semantics" r))%nat
    then unwrap_semantics (edit_first "semantics" promoted r)
    else r.
Proof.
  funelim (unwrap_semantics r);
    match goal with E : (_ <? _)%nat = _ |- _ => rewrite E end; reflexivity.
Qed.

Lemma ltb_length_false {A : Type} (l : list A) :
  (0 <? length l)%nat = false -> l = [].
Proof. destruct l; [reflexivity|discriminate]. Qed.

(** The rule of a loop over a live collection: a property kept by every
    turn holds when the loop ends, and the collection is then empty. *)
Lemma live_collection_loop tag edit (loop : node -> node) (P : node -> Prop) :
  (forall c, has_tag tag c = true ->
     length (flat_map (elements_named tag) (edit c))
     < length (elements_named tag c)) ->
  (forall r,
     loop r = if (0 <? length (getElementsByTagName tag r))%nat
              then loop (edit_first tag edit r) else r) ->
  (forall r, P r -> P (edit_first tag edit r)) ->
  forall r, P r -> P (loop r) /\ getElementsByTagName tag (loop r) = [].
Proof.
  intros Hshrink Hunfold Hstep r.
  remember (length (getElementsByTagName tag r)) as n eqn:Hn.
  revert r Hn. induction n as [n IH] using lt_wf_ind. intros r -> Hr.
  rewrite Hunfold.
  destruct (0 <? length (getElementsByTagName tag r))%nat eqn:E.
  - eapply IH; [|reflexivity|apply Hstep; exact Hr].
    apply edit_first_shrinks; [exact Hshrink|].
    apply nonempty_of_ltb. exact E.
  - split; [exact Hr|]. apply ltb_length_false. exact E.
Qed.

(** A property kept by every turn of the first loop holds when it ends. *)
Lemma remove_annotations_invariant (P : node -> Prop) :
  (forall r, P r -> P (edit_first "annotation" detached r)) ->
  forall r, P r -> P (remove_annotations r).
Proof.
  intros Hstep r Hr.
  apply (live_collection_loop "annotation" detached remove_annotations P);
    auto using detached_shrinks, remove_annotations_step.
Qed.

(** A property kept by every turn of the second loop holds when it ends. *)
Lemma unwrap_semantics_invariant (P : node -> Prop) :
  (forall r, P r -> P (edit_first "semantics" promoted r)) ->
  forall r, P r -> P (unwrap_semantics r).
Proof.
  intros Hstep r Hr.
  apply (live_collection_loop "semantics" promoted unwrap_semantics P);
    auto using promoted_shrinks, unwrap_semantics_step.
Qed.

(** The first loop ends with an empty collection. *)
Lemma remove_annotations_empties r :
  getElementsByTagName "annotation" (remove_annotations r) = [].
Proof.
  apply (live_collection_loop "annotation" detached remove_annotations
           (fun _ => True));
    auto using detached_shrinks, remove_annotations_step.
Qed.

(** The second loop ends with an empty collection. *)
Lemma unwrap_semantics_empties r :
  getElementsByTagName "semantics" (unwrap_semantics r) = [].
Proof.
  apply (live_collection_loop "semantics" promoted unwrap_semantics
           (fun _ => True));
    auto using promoted_shrinks, unwrap_semantics_step.
Qed.

Lemma elements_named_element tag t a k :
  elements_named tag (Element t a k)
  = (if t =? tag then [Element t a k] else [])
      ++ flat_map (elements_named tag) k.
Proof. reflexivity. Qed.

Lemma elements_named_nil_inv tag t a k :
  elements_named tag (Element t a k) = [] ->
  (t =? tag) = false /\ flat_map (elements_named tag) k = [].
Proof.
  rewrite elements_named_element.
  destruct (t =? tag); [discriminate|]. simpl. auto.
Qed.

Lemma flat_map_nil_app {A B : Type} (f : A -> list B) l1 l2 :
  flat_map f l1 = [] -> flat_map f l2 = [] -> flat_map f (l1 ++ l2) = [].
Proof. intros H1 H2. rewrite flat_map_app, H1, H2. reflexivity. Qed.

Lemma childNodes_clean tag c :
  elements_named tag c = [] ->
  flat_map (elements_named tag) (childNodes c) = [].
Proof.
  destruct c as [t a k|d]; [|reflexivity].
  intros H. apply elements_named_nil_inv in H as [_ H]. exact H.
Qed.

(** Editing the first element of a collection leaves a tree free of
    elements named [other] free of them, as long as the edit only puts
    back nodes taken from the element. *)
Lemma edit_first_keeps_clean tag edit other :
  (forall c, elements_named other c = [] ->
             flat_map (elements_named other) (edit c) = []) ->
  forall n,
    elements_named other n = [] ->
    elements_named other (edit_first tag edit n) = [].
Proof.
  intros Hedit n.
  induction n as [t a k IH|d] using node_ind; [|reflexivity].
  intros H. apply elements_named_nil_inv in H as [Ht Hk].
  rewrite edit_first_unfold, elements_named_element, Ht. simpl.
  induction IH as [|c rest Hc _ IHrest]; [reflexivity|].
  simpl in Hk. apply app_eq_nil in Hk as [Hk1 Hk2].
  simpl.
  destruct (has_tag tag c).
  - apply flat_map_nil_app; auto.
  - destruct (elements_named tag c); simpl.
    + rewrite Hk1. simpl. auto.
    + rewrite (Hc Hk1). simpl. exact Hk2.
Qed.

Lemma unwrap_first_child_keeps_clean other k :
  flat_map (elements_named other) k = [] ->
  flat_map (elements_named other) (unwrap_first_child k) = [].
Proof.
  induction k as [|c rest IH]; [reflexivity|].
  simpl. intros H. apply app_eq_nil in H as [H1 H2].
  destruct (is_element c).
  - apply flat_map_nil_app; [|exact H2].
    rewrite promoted_childNodes. apply childNodes_clean. exact H1.
  - simpl. rewrite H1. simpl. auto.
Qed.

Lemma unwrap_top_mrow_keeps_clean other r :
  elements_named other r = [] ->
  elements_named other (unwrap_top_mrow r) = [].
Proof.
  destruct r as [t a k|d]; [|reflexivity].
  intros H. unfold unwrap_top_mrow.
  destruct (children (Element t a k)) as [|mrow [|? ?]]; try exact H.
  destruct (has_tag "mrow" mrow); [|exact H].
  apply elements_named_nil_inv in H as [Ht Hk].
  rewrite elements_named_element, Ht. simpl.
  apply unwrap_first_child_keeps_clean. exact Hk.
Qed.

(** C5. Whatever the tree the parser hands over for a math root, the tree
    that is serialized holds no element named [annotation], at any
    depth. *)
Theorem annotations_stripped (mathRoot : node) :
  has_tag "annotation" mathRoot = false ->
  elements_named "annotation" (normalize mathRoot) = [].
Proof.
  intros Hroot. unfold normalize.
  apply unwrap_top_mrow_keeps_clean.
  apply unwrap_semantics_invariant.
  - intros r Hr. apply edit_first_keeps_clean; [|exact Hr].
    intros c Hc. rewrite promoted_childNodes. apply childNodes_clean. exact Hc.
  - rewrite elements_named_untagged.
    + apply remove_annotations_empties.
    + apply (remove_annotations_invariant
               (fun r => has_tag "annotation" r = false)); [|exact Hroot].
      intros r Hr. rewrite has_tag_edit_first. exact Hr.
Qed.

Lemma annotations_stripped_witness :
  has_tag "annotation"
    (Element "math" []
       [Element "semantics" []
          [Element "mrow" []
             [Element "mi" [] [CharacterData "x"];
              Element "annotation" [] [CharacterData "inner"]];
           Element "annotation" [] [CharacterData "x"]]]) = false
  /\ elements_named "annotation"
       (normalize
          (Element "math" []
             [Element "semantics" []
                [Element "mrow" []
                   [Element "mi" [] [CharacterData "x"];
                    Element "annotation" [] [CharacterData "inner"]];
                 Element "annotation" [] [CharacterData "x"]]])) = [].
Proof.
  split; [reflexivity|].
  apply annotations_stripped. reflexivity.
Defined.

(** Evaluate the walks over the known part of a tree, using [H] for the
    part that is not known. *)
Ltac tree_eval H :=
  repeat (progress
            (cbn [getElementsByTagName childNodes flat_map elements_named app
                  edit_first edit_first_among has_tag is_element children
                  filter unwrap_first_child detached length Nat.ltb Nat.leb];
             literal_eqb; rewrite ?H)).

(** C4, as stated, fails where [X] itself holds a [semantics] element: the
    clean-up reaches into [X], and [<math>X</math>] is not what comes
    out. *)
Lemma nested_semantics_counterexample :
  let X := [Element "semantics" [] [Element "mi" [] [CharacterData "a"]]] in
  let Y := [CharacterData "a"] in
  normalize (semantics_shape [] [] [] [] X Y) <> Element "math" [] X
  /\ normalize (semantics_shape [] [] [] [] X Y)
     = Element "math" [] [Element "mi" [] [CharacterData "a"]].
Proof.
  split; [vm_compute; discriminate|vm_compute; reflexivity].
Qed.

(** C4, amended. When [X] holds no [annotation] and no [semantics]
    element, a tree of the shape
    [<math><semantics><mrow>X</mrow><annotation>Y</annotation></semantics></math>]
    is cleaned to [<math>X</math>]: the annotation is removed, the
    semantics wrapper gives way to its remaining child, and the sole
    top-level [mrow] gives way to its child nodes, in their order. *)
Theorem semantics_unwrap am asem arow aann (X Y : list node) :
  flat_map (elements_named "annotation") X = [] ->
  flat_map (elements_named "semantics") X = [] ->
  normalize (semantics_shape am asem arow aann X Y) = Element "math" am X.
Proof.
  intros HA HS. unfold normalize, semantics_shape.
  (* step 1: one turn removes the annotation, then the collection is empty *)
  rewrite remove_annotations_step. tree_eval HA.
  rewrite remove_annotations_step. tree_eval HA.
  (* step 2: one turn unwraps the wrapper, then the collection is empty *)
  rewrite unwrap_semantics_step. tree_eval HS.
  rewrite promoted_childNodes. cbn [childNodes app].
  rewrite unwrap_semantics_step. tree_eval HS.
  (* step 3: the sole element child is the mrow *)
  unfold unwrap_top_mrow. tree_eval HS.
  rewrite promoted_childNodes. cbn [childNodes]. rewrite app_nil_r. reflexivity.
Qed.

Lemma semantics_unwrap_witness :
  let X := [Element "mi" [] [CharacterData "x"];
            Element "mo" [] [CharacterData "+"];
            Element "mrow" [] [Element "mn" [] [CharacterData "1"]]] in
  flat_map (elements_named "annotation") X = []
  /\ flat_map (elements_named "semantics") X = []
  /\ normalize (semantics_shape [("xmlns", "http://www.w3.org/1998/Math/MathML")]
                  [] [] [("encoding", "application/x-tex")]
                  X [CharacterData "x+1"])
     = Element "math" [("xmlns", "http://www.w3.org/1998/Math/MathML")] X.
Proof.
  intros X. split; [reflexivity|]. split; [reflexivity|].
  apply semantics_unwrap; reflexivity.
Defined.

(** The clean-up leaves no [semantics] element either. *)
Lemma semantics_unwrapped (mathRoot : node) :
  has_tag "semantics" mathRoot = false ->
  elements_named "semantics" (normalize mathRoot) = [].
Proof.
  intros Hroot. unfold normalize.
  apply unwrap_top_mrow_keeps_clean.
  rewrite elements_named_untagged.
  - apply unwrap_semantics_empties.
  - apply (unwrap_semantics_invariant
             (fun r => has_tag "semantics" r = false)).
    + intros r Hr. rewrite has_tag_edit_first. exact Hr.
    + apply (remove_annotations_invariant
               (fun r => has_tag "semantics" r = false)); [|exact Hroot].
      intros r Hr. rewrite has_tag_edit_first. exact Hr.
Qed.

(** The condition on [X] is the least one: a tree of the shape is cleaned
    to [<math>X</math>] only if [X] holds no [annotation] and no
    [semantics] element. *)
Lemma clean_shape_only_if am asem arow aann (X Y : list node) :
  normalize (semantics_shape am asem arow aann X Y) = Element "math" am X ->
  flat_map (elements_named "annotation") X = []
  /\ flat_map (elements_named "semantics") X = [].
Proof.
  intros H. split.
  - assert (Hclean : elements_named "annotation" (Element "math" am X) = []).
    { rewrite <- H. unfold normalize.
      apply unwrap_top_mrow_keeps_clean.
      apply unwrap_semantics_invariant.
      - intros r Hr. apply edit_first_keeps_clean; [|exact Hr].
        intros c Hc. rewrite promoted_childNodes.
        apply childNodes_clean. exact Hc.
      - rewrite elements_named_untagged.
        + apply remove_annotations_empties.
        + apply (remove_annotations_invariant
                   (fun r => has_tag "annotation" r = false)); [|reflexivity].
          intros r Hr. rewrite has_tag_edit_first. exact Hr. }
    apply elements_named_nil_inv in Hclean as [_ Hclean]. exact Hclean.
  - assert (Hclean : elements_named "semantics" (Element "math" am X) = []).
    { rewrite <- H. apply semantics_unwrapped. reflexivity. }
    apply elements_named_nil_inv in Hclean as [_ Hclean]. exact Hclean.
Qed.

End TreeFacts.

(* ===================================================================== *)
(** * Properties of the assembled output *)
(* ===================================================================== *)

Section OutputFacts.

Variable parseFromString : string -> node.
Variable serializeToString : node -> string.

#[local] Abbreviation host_ok := (Pipeline.host_ok parseFromString serializeToString).
#[local] Abbreviation attempt := (Pipeline.attempt parseFromString serializeToString).
#[local] Abbreviation writes := (Pipeline.writes parseFromString serializeToString).
#[local] Abbreviation fails := (Pipeline.fails parseFromString serializeToString).
#[local] Abbreviation fragments := (Pipeline.fragments parseFromString serializeToString).
#[local] Abbreviation warnings := (Pipeline.warnings parseFromString serializeToString).
#[local] Abbreviation iteration := (Pipeline.iteration parseFromString serializeToString).
#[local] Abbreviation scan_loop := (Pipeline.scan_loop parseFromString serializeToString).
#[local] Abbreviation generateMathML :=
  (Pipeline.generateMathML parseFromString serializeToString).

(** One turn of the loop, read off the outcome of its [try] block. *)
Lemma iteration_attempt katex m st :
  iteration katex m st
  = match attempt katex m with
    | Return (Some c) =>
        mkState ((if (0 <? count st)%nat then output st ++ blank_line
                  else output st) ++ c)
                (S (count st)) (console st)
    | Return None => st
    | Throw e =>
        mkState (output st) (count st)
                (console st ++ [("Error converting equation to MathML", e)])
    end.
Proof.
  unfold Pipeline.iteration, Pipeline.attempt, try_block, clean, bind.
  destruct (katex (latex_of m) (isBlock_of m)) as [raw|e]; [|reflexivity].
  destruct (math_match raw); reflexivity.
Qed.

Lemma scan_loop_step katex unread st :
  scan_loop katex unread st
  = match exec unread with
    | Some (m, rest) => scan_loop katex rest (iteration katex m st)
    | None => st
    end.
Proof.
  funelim (Pipeline.scan_loop parseFromString serializeToString katex unread st);
    match goal with E : exec _ = _ |- _ => rewrite E end; reflexivity.
Qed.

(** The loop is a left-to-right pass over the matches of the text. *)
Lemma scan_loop_fold katex unread st :
  scan_loop katex unread st
  = fold_left (fun st m => iteration katex m st) (matches unread) st.
Proof.
  remember (String.length unread) as n eqn:Hn.
  revert unread st Hn. induction n as [n IH] using lt_wf_ind.
  intros unread st ->.
  rewrite scan_loop_step, matches_step.
  destruct (exec unread) as [[m rest]|] eqn:E; [|reflexivity].
  simpl. eapply IH; [eapply exec_shorter; eauto|reflexivity].
Qed.

Lemma append_nil_r (s : string) : s ++ "" = s.
Proof. induction s as [|c s IH]; simpl; [reflexivity|rewrite IH; reflexivity]. Qed.

(** Joining one more fragment: the separator is written only when a
    fragment was written before. *)
Lemma concat_snoc sep (done : list string) c :
  String.concat sep (done ++ [c])
  = (if (0 <? length done)%nat then String.concat sep done ++ sep
     else String.concat sep done) ++ c.
Proof.
  induction done as [|x done IH]; [reflexivity|].
  destruct done as [|y done].
  - simpl. rewrite append_assoc. reflexivity.
  - change (String.concat sep ((x :: y :: done) ++ [c]))
      with (x ++ sep ++ String.concat sep ((y :: done) ++ [c])).
    rewrite IH.
    change (String.concat sep (x :: y :: done))
      with (x ++ sep ++ String.concat sep (y :: done)).
    cbn [length Nat.ltb Nat.leb].
    rewrite !append_assoc. reflexivity.
Qed.

(** The invariant of the loop: [output] is the join of the fragments
    written so far and [count] is their number. *)
Lemma fold_iteration katex ms : forall st done,
  output st = String.concat blank_line done ->
  count st = length done ->
  let st' := fold_left (fun st m => iteration katex m st) ms st in
  output st' = String.concat blank_line (done ++ fragments katex ms)
  /\ count st' = length (done ++ fragments katex ms)
  /\ console st' = (console st ++ warnings katex ms)%list.
Proof.
  induction ms as [|m ms IH]; intros st done Hout Hcount; simpl.
  - rewrite !app_nil_r. auto.
  - unfold Pipeline.fragments, Pipeline.warnings in *. simpl.
    rewrite iteration_attempt.
    destruct (attempt katex m) as [[c|]|e].
    + specialize (IH (mkState ((if (0 <? count st)%nat
                                then output st ++ blank_line else output st) ++ c)
                              (S (count st)) (console st)) (done ++ [c])%list).
      simpl in IH. rewrite <- app_assoc in IH. simpl in IH.
      apply IH.
      * rewrite concat_snoc, Hout, Hcount. reflexivity.
      * rewrite length_app. simpl. lia.
    + simpl. apply IH; assumption.
    + specialize (IH (mkState (output st) (count st)
                              (console st ++ [("Error converting equation to MathML", e)])%list)
                     done Hout Hcount).
      simpl in IH. rewrite <- app_assoc in IH. exact IH.
Qed.

(** What the routine returns and what it writes to the console, when
    [window.katex] is there. *)
Lemma generateMathML_summary katex markdown :
  generateMathML (Some katex) markdown
  = (Return (let joined :=
               String.concat blank_line (fragments katex (matches markdown)) in
             if joined =? "" then "No mathematical formulas detected."
             else joined),
     warnings katex (matches markdown)).
Proof.
  unfold Pipeline.generateMathML. rewrite scan_loop_fold.
  destruct (fold_iteration katex (matches markdown) (mkState "" 0 []) [])
    as (Hout & _ & Hcon); [reflexivity|reflexivity|].
  simpl in *. rewrite Hout, Hcon. reflexivity.
Qed.

Lemma concat_nonempty sep (l : list string) :
  l <> [] -> Forall (fun c => c <> "") l -> String.concat sep l <> "".
Proof.
  destruct l as [|x l]; [congruence|]. intros _ H.
  inversion H as [|? ? Hx _]; subst.
  destruct x as [|a x]; [congruence|].
  destruct l; simpl; discriminate.
Qed.

Lemma eqb_nonempty (s : string) : s <> "" -> (s =? "") = false.
Proof. intros H. apply String.eqb_neq. exact H. Qed.

Lemma fragments_all_written katex ms cs :
  Forall2 (writes katex) ms cs ->
  fragments katex ms = cs /\ warnings katex ms = [].
Proof.
  unfold Pipeline.fragments, Pipeline.warnings.
  induction 1 as [|m c ms cs Hm _ [IH1 IH2]]; [auto|].
  simpl. unfold Pipeline.writes in Hm. rewrite Hm. simpl. rewrite IH1, IH2. auto.
Qed.

Lemma fragments_app katex ms1 ms2 :
  fragments katex (ms1 ++ ms2) = (fragments katex ms1 ++ fragments katex ms2)%list.
Proof. apply flat_map_app. Qed.

Lemma warnings_app katex ms1 ms2 :
  warnings katex (ms1 ++ ms2) = (warnings katex ms1 ++ warnings katex ms2)%list.
Proof. apply flat_map_app. Qed.

(** The clean-up hands back an element when it is given one. *)
Lemma normalize_is_element r : is_element (normalize r) = is_element r.
Proof.
  unfold normalize.
  assert (H3 : forall n, is_element (unwrap_top_mrow n) = is_element n).
  { intros [t a k|d]; [|reflexivity]. unfold unwrap_top_mrow.
    destruct (children (Element t a k)) as [|mrow [|? ?]]; try reflexivity.
    destruct (has_tag "mrow" mrow); reflexivity. }
  assert (Hedit : forall tag edit n,
             is_element (edit_first tag edit n) = is_element n)
    by (intros tag edit [t a k|d]; reflexivity).
  rewrite H3.
  apply (unwrap_semantics_invariant (fun n => is_element n = is_element r)).
  { intros n Hn. rewrite Hedit. exact Hn. }
  apply (remove_annotations_invariant (fun n => is_element n = is_element r)).
  { intros n Hn. rewrite Hedit. exact Hn. }
  reflexivity.
Qed.

Lemma written_nonempty katex ms cs :
  host_ok ->
  Forall2 (writes katex) ms cs -> Forall (fun c => c <> "") cs.
Proof.
  intros [Hparse Hser].
  induction 1 as [|m c ms cs Hm _ IH]; constructor; [|exact IH].
  unfold Pipeline.writes, Pipeline.attempt, bind in Hm.
  destruct (katex (latex_of m) (isBlock_of m)) as [raw|e]; [|discriminate].
  destruct (math_match raw) as [mm|]; [|discriminate].
  inversion Hm; subst. apply Hser.
  rewrite normalize_is_element. apply Hparse.
Qed.

Lemma fragments_all_failed katex ms :
  Forall (fails katex) ms -> fragments katex ms = [].
Proof.
  unfold Pipeline.fragments.
  induction 1 as [|m ms Hm _ IH]; [reflexivity|].
  simpl. rewrite IH.
  destruct Hm as [[e Hm]|Hm]; rewrite Hm; reflexivity.
Qed.

(** C1. When the scanner finds at least one span and every turn of the
    loop succeeds (the renderer returns and its markup holds a math
    element), the string returned is the cleaned fragments joined by
    exactly one blank line (two line feeds), in the order of the spans in
    the text; nothing is written to the console. *)
Theorem fragments_joined_in_order katex markdown cs :
  host_ok ->
  matches markdown <> [] ->
  Forall2 (writes katex) (matches markdown) cs ->
  generateMathML (Some katex) markdown
  = (Return (String.concat blank_line cs), []).
Proof.
  intros Hhost Hne Hall.
  rewrite generateMathML_summary.
  destruct (fragments_all_written _ _ _ Hall) as [-> ->].
  cbv zeta. rewrite eqb_nonempty; [reflexivity|].
  apply concat_nonempty.
  - intros ->. inversion Hall. congruence.
  - eapply written_nonempty; eauto.
Qed.

(** C2. When the renderer throws for one span and every other span
    succeeds, the string returned is the join of the fragments of the
    other spans, in their order, as if the failed span were not there; the
    loop goes on after the throw, which leaves one warning on the
    console. *)
Theorem failed_span_omitted katex markdown before m after e cb ca :
  host_ok ->
  matches markdown = (before ++ m :: after)%list ->
  attempt katex m = Throw e ->
  Forall2 (writes katex) before cb ->
  Forall2 (writes katex) after ca ->
  (cb ++ ca)%list <> [] ->
  generateMathML (Some katex) markdown
  = (Return (String.concat blank_line (cb ++ ca)),
     [("Error converting equation to MathML", e)]).
Proof.
  intros Hhost Hsplit Hm Hb Ha Hne.
  rewrite generateMathML_summary, Hsplit.
  rewrite fragments_app, warnings_app.
  destruct (fragments_all_written _ _ _ Hb) as [-> ->].
  change (m :: after) with ([m] ++ after)%list.
  rewrite fragments_app, warnings_app.
  destruct (fragments_all_written _ _ _ Ha) as [-> ->].
  unfold Pipeline.fragments, Pipeline.warnings. simpl. rewrite Hm. simpl.
  rewrite eqb_nonempty; [reflexivity|].
  apply concat_nonempty; [exact Hne|].
  apply Forall_app. split; eapply written_nonempty; eauto.
Qed.

(** C3. When the scanner finds no span, or every span it finds fails (the
    renderer throws or its markup holds no math element), the call
    returns normally with the fixed string
    ["No mathematical formulas detected."], which is not the empty
    string. *)
Theorem sentinel_when_nothing_written katex markdown :
  matches markdown = [] \/ Forall (fails katex) (matches markdown) ->
  fst (generateMathML (Some katex) markdown)
  = Return "No mathematical formulas detected."
  /\ "No mathematical formulas detected." <> "".
Proof.
  intros H. split; [|discriminate].
  assert (Hall : Forall (fails katex) (matches markdown)).
  { destruct H as [-> | H]; [constructor|exact H]. }
  rewrite generateMathML_summary, (fragments_all_failed _ _ Hall).
  reflexivity.
Qed.

(** A text without a dollar sign holds no span. *)
Lemma matches_dollar_free markdown :
  dollar_free markdown = true -> matches markdown = [].
Proof.
  intros H. rewrite matches_step.
  rewrite <- (append_nil_r markdown), (exec_skip _ _ H). reflexivity.
Qed.

(** Scanning a text without a dollar sign yields the fixed string. *)
Corollary sentinel_without_dollar katex markdown :
  dollar_free markdown = true ->
  generateMathML (Some katex) markdown
  = (Return "No mathematical formulas detected.", []).
Proof.
  intros H. rewrite generateMathML_summary, (matches_dollar_free _ H).
  reflexivity.
Qed.

(** C9, amended. When [window.katex] is missing the call returns normally
    with the fixed string ["KaTeX library not found."], for every text,
    and writes nothing to the console; and with or without a renderer, a
    call never completes with a throw. *)
Theorem missing_renderer_returns_notice :
  (forall markdown,
      generateMathML None markdown = (Return "KaTeX library not found.", []))
  /\ (forall katex markdown,
        exists s, fst (generateMathML katex markdown) = Return s).
Proof.
  split; [reflexivity|].
  intros [k|] markdown; [|eexists; reflexivity].
  rewrite generateMathML_summary. eexists; reflexivity.
Qed.

(** C8, at the text ["$x$"] with a renderer whose markup holds no math
    element: the span fails, the call returns the fixed string and the
    console stays empty, exactly as for a text without any span; a
    renderer that throws on the same text leaves a warning. *)
Theorem extraction_failure_unreported :
  fails Host.mathless (mkGroups undefined (str "x"))
  /\ generateMathML (Some Host.mathless) "$x$"
     = (Return "No mathematical formulas detected.", [])
  /\ generateMathML (Some Host.mathless) ""
     = (Return "No mathematical formulas detected.", [])
  /\ generateMathML (Some (fun _ _ => Throw "ParseError")) "$x$"
     = (Return "No mathematical formulas detected.",
        [("Error converting equation to MathML", "ParseError")]).
Proof.
  split; [right; reflexivity|].
  split; [|split]; rewrite generateMathML_summary; vm_compute; reflexivity.
Qed.

End OutputFacts.

(* ===================================================================== *)
(** * Worked examples on the sample host *)
(* ===================================================================== *)

Lemma sample_host_ok :
  host_ok Host.parseFromString Host.serializeToString.
Proof.
  split.
  - intros s. unfold Host.parseFromString.
    repeat match goal with |- context [if ?b then _ else _] => destruct b end;
      reflexivity.
  - intros [t a [|c k]|d] H; simpl; discriminate.
Qed.

Lemma fragments_joined_in_order_witness :
  let md := "The value is $$a$$ and $b$." in
  let cs := ["<math><mi>a</mi></math>"; "<math><mi>b</mi></math>"] in
  matches md <> []
  /\ Forall2 (writes Host.parseFromString Host.serializeToString
                (Host.echo false)) (matches md) cs
  /\ generateMathML Host.parseFromString Host.serializeToString
       (Some (Host.echo false)) md
     = (Return (String.concat blank_line cs), []).
Proof.
  intros md cs.
  assert (Hne : matches md <> []) by (vm_compute; discriminate).
  assert (Hall : Forall2 (writes Host.parseFromString Host.serializeToString
                            (Host.echo false)) (matches md) cs).
  { replace (matches md)
      with [mkGroups (str "a") undefined; mkGroups undefined (str "b")]
      by (vm_compute; reflexivity).
    repeat (constructor; [unfold writes; vm_compute; reflexivity|]).
    constructor. }
  split; [exact Hne|]. split; [exact Hall|].
  exact (fragments_joined_in_order _ _ (Host.echo false) md cs
           sample_host_ok Hne Hall).
Defined.

Lemma failed_span_omitted_witness :
  let md := "$$a$$ $$b$$" in
  let m_a := mkGroups (str "a") undefined in
  let m_b := mkGroups (str "b") undefined in
  matches md = ([m_a] ++ m_b :: [])%list
  /\ attempt Host.parseFromString Host.serializeToString (Host.echo true) m_b
     = Throw "ParseError"
  /\ generateMathML Host.parseFromString Host.serializeToString
       (Some (Host.echo true)) md
     = (Return "<math><mi>a</mi></math>",
        [("Error converting equation to MathML", "ParseError")]).
Proof.
  intros md m_a m_b.
  assert (Hsplit : matches md = ([m_a] ++ m_b :: [])%list)
    by (vm_compute; reflexivity).
  split; [exact Hsplit|]. split; [reflexivity|].
  refine (failed_span_omitted _ _ (Host.echo true) md [m_a] m_b [] "ParseError"
            ["<math><mi>a</mi></math>"] [] sample_host_ok Hsplit eq_refl _ _ _).
  - constructor; [unfold writes; vm_compute; reflexivity|constructor].
  - constructor.
  - discriminate.
Defined.

Lemma sentinel_when_nothing_written_witness :
  Forall (fails Host.parseFromString Host.serializeToString (Host.echo true))
         (matches "only $b$ here")
  /\ fst (generateMathML Host.parseFromString Host.serializeToString
            (Some (Host.echo true)) "only $b$ here")
     = Return "No mathematical formulas detected.".
Proof.
  assert (H : Forall (fails Host.parseFromString Host.serializeToString
                        (Host.echo true)) (matches "only $b$ here")).
  { replace (matches "only $b$ here") with [mkGroups undefined (str "b")]
      by (vm_compute; reflexivity).
    constructor; [|constructor]. left. exists "ParseError". reflexivity. }
  split; [exact H|].
  exact (proj1 (sentinel_when_nothing_written _ _ (Host.echo true)
                  "only $b$ here" (or_intror H))).
Defined.

(** C9, as stated, fails: with [window.katex] missing the call does not
    complete with a throw. *)
Lemma missing_renderer_counterexample :
  ~ (exists e,
        fst (generateMathML Host.parseFromString Host.serializeToString
               None "$x$") = Throw e).
Proof. intros [e H]. discriminate H. Qed.

(* ===================================================================== *)
(** * Further properties of the clean-up *)
(* ===================================================================== *)

Section TreeTransforms.

#[local] Open Scope list_scope.

Import TreeSpec.

Lemma flat_map_singletons {A : Type} (l : list A) :
  flat_map (fun c => [c]) l = l.
Proof. induction l as [|x l IH]; simpl; [reflexivity|rewrite IH; reflexivity]. Qed.

Lemma has_tag_named tag c : has_tag tag c = true -> elements_named tag c <> [].
Proof.
  destruct c as [t a k|d]; simpl; [|discriminate].
  intros ->. discriminate.
Qed.

(** A tree without a descendant named [tag] is left as it is by
    [strip tag]. *)
Lemma strip_clean tag n :
  getElementsByTagName tag n = [] -> strip tag n = n.
Proof.
  induction n as [t a k IH|d] using node_ind; [|reflexivity].
  unfold getElementsByTagName. simpl. intros H. f_equal.
  induction IH as [|c rest Hc _ IHrest]; [reflexivity|].
  simpl in H. apply app_eq_nil in H as [H1 H2]. simpl.
  destruct (has_tag tag c) eqn:Htag.
  - apply has_tag_named in Htag. contradiction.
  - rewrite Hc, (IHrest H2); [reflexivity|].
    rewrite <- elements_named_untagged by exact Htag. exact H1.
Qed.

(** A tree without a descendant named [tag] is left as it is by
    [splice tag]. *)
Lemma splice_clean tag n :
  getElementsByTagName tag n = [] -> splice tag n = n.
Proof.
  induction n as [t a k IH|d] using node_ind; [|reflexivity].
  unfold getElementsByTagName. simpl. intros H. f_equal.
  induction IH as [|c rest Hc _ IHrest]; [reflexivity|].
  simpl in H. apply app_eq_nil in H as [H1 H2]. simpl.
  destruct (has_tag tag c) eqn:Htag.
  - apply has_tag_named in Htag. contradiction.
  - rewrite Hc, (IHrest H2); [reflexivity|].
    rewrite <- elements_named_untagged by exact Htag. exact H1.
Qed.

Lemma has_tag_strip tag other n : has_tag other (strip tag n) = has_tag other n.
Proof. destruct n; reflexivity. Qed.

Lemma has_tag_splice tag other n : has_tag other (splice tag n) = has_tag other n.
Proof. destruct n; reflexivity. Qed.

(** Removing the first element of the collection does not change what
    [strip] makes of the tree. *)
Lemma strip_edit_first tag n :
  strip tag (edit_first tag detached n) = strip tag n.
Proof.
  induction n as [t a k IH|d] using node_ind; [|reflexivity].
  rewrite edit_first_unfold. simpl. f_equal.
  induction IH as [|c rest Hc _ IHrest]; [reflexivity|].
  simpl. destruct (has_tag tag c) eqn:Htag.
  - reflexivity.
  - destruct (elements_named tag c) as [|e es]; simpl.
    + rewrite Htag, IHrest. reflexivity.
    + rewrite has_tag_edit_first, Htag, Hc. reflexivity.
Qed.

(** Unwrapping the first element of the collection does not change what
    [splice] makes of the tree. *)
Lemma splice_edit_first tag n :
  splice tag (edit_first tag promoted n) = splice tag n.
Proof.
  induction n as [t a k IH|d] using node_ind; [|reflexivity].
  rewrite edit_first_unfold. simpl. f_equal.
  induction IH as [|c rest Hc _ IHrest]; [reflexivity|].
  simpl. destruct (has_tag tag c) eqn:Htag.
  - rewrite promoted_childNodes, flat_map_app. f_equal.
    destruct c as [t' a' k'|d']; [|discriminate]. reflexivity.
  - destruct (elements_named tag c) as [|e es]; simpl.
    + rewrite Htag, IHrest. reflexivity.
    + rewrite has_tag_edit_first, Htag, Hc. reflexivity.
Qed.

Lemma remove_annotations_strip r :
  remove_annotations r = strip "annotation" r.
Proof.
  destruct (live_collection_loop "annotation" detached remove_annotations
              (fun n' => strip "annotation" n' = strip "annotation" r))
    with (r := r) as [Hinv Hempty];
    auto using detached_shrinks, remove_annotations_step.
  - intros n' Hn'. rewrite strip_edit_first. exact Hn'.
  - rewrite <- Hinv. symmetry. apply strip_clean. exact Hempty.
Qed.

Lemma unwrap_semantics_splice r :
  unwrap_semantics r = splice "semantics" r.
Proof.
  destruct (live_collection_loop "semantics" promoted unwrap_semantics
              (fun n' => splice "semantics" n' = splice "semantics" r))
    with (r := r) as [Hinv Hempty];
    auto using promoted_shrinks, unwrap_semantics_step.
  - intros n' Hn'. rewrite splice_edit_first. exact Hn'.
  - rewrite <- Hinv. symmetry. apply splice_clean. exact Hempty.
Qed.

(** X1. The clean-up is one pass of each transform: the first loop removes
    exactly the subtrees rooted at an element named [annotation], the
    second replaces every element named [semantics], at any depth, by its
    child nodes, and every other node keeps its place, its attributes and
    its order. *)
Theorem normalize_is_one_pass r :
  remove_annotations r = strip "annotation" r
  /\ unwrap_semantics r = splice "semantics" r
  /\ normalize r
     = unwrap_top_mrow (splice "semantics" (strip "annotation" r)).
Proof.
  split; [apply remove_annotations_strip|].
  split; [apply unwrap_semantics_splice|].
  unfold normalize.
  rewrite remove_annotations_strip, unwrap_semantics_splice. reflexivity.
Qed.

Lemma data_of_splice tag n : data_of (splice tag n) = data_of n.
Proof.
  induction n as [t a k IH|d] using node_ind; [|reflexivity].
  simpl. induction IH as [|c rest Hc _ IHrest]; [reflexivity|].
  simpl. rewrite flat_map_app, IHrest. f_equal.
  destruct (has_tag tag c) eqn:Htag.
  - destruct c as [t' a' k'|d']; [|discriminate].
    rewrite <- Hc. reflexivity.
  - simpl. rewrite app_nil_r. exact Hc.
Qed.

Lemma data_of_unwrap_top_mrow n : data_of (unwrap_top_mrow n) = data_of n.
Proof.
  destruct n as [t a k|d]; [|reflexivity]. unfold unwrap_top_mrow.
  destruct (children (Element t a k)) as [|m [|? ?]]; try reflexivity.
  destruct (has_tag "mrow" m); [|reflexivity].
  simpl. clear m. induction k as [|c rest IH]; [reflexivity|].
  simpl. destruct (is_element c) eqn:E.
  - rewrite flat_map_app, promoted_childNodes.
    destruct c; [reflexivity|discriminate].
  - simpl. rewrite IH. reflexivity.
Qed.

(** X24. No character data is lost or reordered by the clean-up, except
    what stands inside an [annotation] element: the text nodes of the
    result are, in document order, those of the tree outside its
    annotations. *)
Theorem normalize_keeps_character_data r :
  data_of (normalize r) = data_of (strip "annotation" r)
  /\ (getElementsByTagName "annotation" r = [] ->
      data_of (normalize r) = data_of r).
Proof.
  assert (H : data_of (normalize r) = data_of (strip "annotation" r)).
  { unfold normalize.
    rewrite data_of_unwrap_top_mrow, unwrap_semantics_splice, data_of_splice.
    rewrite remove_annotations_strip. reflexivity. }
  split; [exact H|].
  intros Hclean. rewrite H, (strip_clean _ _ Hclean). reflexivity.
Qed.

Lemma normalize_keeps_character_data_witness :
  let r := Element "math" []
             [Element "semantics" []
                [Element "mrow" []
                   [Element "mi" [] [CharacterData "x"];
                    Element "mo" [] [CharacterData "+"];
                    Element "mn" [] [CharacterData "1"]]]] in
  getElementsByTagName "annotation" r = []
  /\ data_of (normalize r) = ["x"; "+"; "1"].
Proof.
  intros r. split; [reflexivity|].
  exact (proj2 (normalize_keeps_character_data r) eq_refl).
Defined.

(** X2. The clean-up never touches the root element itself: its name and its
    attributes (the namespace declaration among them) are those the
    parser gave. *)
Theorem normalize_keeps_root t a k :
  exists k', normalize (Element t a k) = Element t a k'.
Proof.
  unfold normalize.
  set (P := fun n : node => exists k', n = Element t a k').
  assert (Hedit : forall tag edit n, P n -> P (edit_first tag edit n)).
  { intros tag edit n [k' ->]. rewrite edit_first_unfold. eexists; reflexivity. }
  assert (H2 : P (unwrap_semantics (remove_annotations (Element t a k)))).
  { apply unwrap_semantics_invariant; [apply Hedit|].
    apply remove_annotations_invariant; [apply Hedit|].
    exists k. reflexivity. }
  destruct H2 as [k2 ->]. unfold unwrap_top_mrow.
  destruct (children (Element t a k2)) as [|m [|? ?]];
    try (eexists; reflexivity).
  destruct (has_tag "mrow" m); eexists; reflexivity.
Qed.

(** X4. A tree that holds no [annotation] and no [semantics] element, and
    whose root does not have a [mrow] as its only element child, comes
    out of the clean-up unchanged. *)
Theorem normalize_fixes_clean_tree r :
  getElementsByTagName "annotation" r = [] ->
  getElementsByTagName "semantics" r = [] ->
  (forall m, children r = [m] -> has_tag "mrow" m = false) ->
  normalize r = r.
Proof.
  intros HA HS Hrow. unfold normalize.
  rewrite remove_annotations_step, HA. simpl.
  rewrite unwrap_semantics_step, HS. simpl.
  destruct r as [t a k|d]; [|reflexivity].
  unfold unwrap_top_mrow.
  destruct (children (Element t a k)) as [|m [|? ?]] eqn:E; try reflexivity.
  rewrite (Hrow m eq_refl). reflexivity.
Qed.

Lemma edit_first_among_keeps_clean tag edit other ns :
  (forall c, elements_named other c = [] ->
             flat_map (elements_named other) (edit c) = []) ->
  flat_map (elements_named other) ns = [] ->
  flat_map (elements_named other) (edit_first_among tag edit ns) = [].
Proof.
  intros Hedit. induction ns as [|c rest IH]; [reflexivity|].
  simpl. intros H. apply app_eq_nil in H as [H1 H2].
  destruct (has_tag tag c).
  - apply flat_map_nil_app; auto.
  - destruct (elements_named tag c); simpl.
    + rewrite H1. simpl. auto.
    + rewrite (edit_first_keeps_clean tag edit other Hedit c H1). exact H2.
Qed.

Lemma edit_first_descendants_clean tag edit other n :
  (forall c, elements_named other c = [] ->
             flat_map (elements_named other) (edit c) = []) ->
  getElementsByTagName other n = [] ->
  getElementsByTagName other (edit_first tag edit n) = [].
Proof.
  intros Hedit. destruct n as [t a k|d]; [|auto].
  rewrite edit_first_unfold. unfold getElementsByTagName. simpl.
  apply edit_first_among_keeps_clean. exact Hedit.
Qed.

Lemma promoted_keeps_clean other c :
  elements_named other c = [] ->
  flat_map (elements_named other) (promoted c) = [].
Proof. intros H. rewrite promoted_childNodes. apply childNodes_clean. exact H. Qed.

Lemma detached_keeps_clean other c :
  elements_named other c = [] ->
  flat_map (elements_named other) (detached c) = [].
Proof. reflexivity. Qed.

Lemma unwrap_top_mrow_descendants_clean other r :
  getElementsByTagName other r = [] ->
  getElementsByTagName other (unwrap_top_mrow r) = [].
Proof.
  destruct r as [t a k|d]; [|auto]. intros H. unfold unwrap_top_mrow.
  destruct (children (Element t a k)) as [|m [|? ?]]; try exact H.
  destruct (has_tag "mrow" m); [|exact H].
  unfold getElementsByTagName in *. simpl in *.
  apply unwrap_first_child_keeps_clean. exact H.
Qed.

(** What the clean-up returns has no descendant named [annotation] or
    [semantics], whatever the root. *)
Lemma normalize_descendants_clean r :
  getElementsByTagName "annotation" (normalize r) = []
  /\ getElementsByTagName "semantics" (normalize r) = [].
Proof.
  unfold normalize. split; apply unwrap_top_mrow_descendants_clean.
  - apply (unwrap_semantics_invariant
             (fun n => getElementsByTagName "annotation" n = [])).
    + intros n Hn. apply edit_first_descendants_clean; [|exact Hn].
      apply promoted_keeps_clean.
    + apply remove_annotations_empties.
  - apply unwrap_semantics_empties.
Qed.

(** X3. Running the clean-up on its own result does nothing but the third
    step: at most one more level of a sole top-level [mrow] is
    unwrapped. *)
Theorem normalize_again r :
  normalize (normalize r) = unwrap_top_mrow (normalize r).
Proof.
  destruct (normalize_descendants_clean r) as [HA HS].
  unfold normalize at 1.
  rewrite remove_annotations_step, HA. simpl.
  rewrite unwrap_semantics_step, HS. reflexivity.
Qed.

Lemma normalize_fixes_clean_tree_witness :
  let r := Element "math" [("display", "block")]
             [Element "mi" [] [CharacterData "x"];
              Element "mo" [] [CharacterData "="];
              Element "mrow" [] [Element "mn" [] [CharacterData "1"]]] in
  normalize r = r.
Proof.
  intros r. apply normalize_fixes_clean_tree; try reflexivity.
  intros m H. discriminate H.
Defined.

End TreeTransforms.

(* ===================================================================== *)
(** * Further properties of the scanner and of the extraction *)
(* ===================================================================== *)

Section ScanFacts.

Import ScanSpec.

Lemma in_order_later bodies x s : in_order bodies s -> in_order bodies (x ++ s).
Proof.
  intros H. destruct H as [s|body bodies before after H].
  - constructor.
  - rewrite <- append_assoc. constructor. exact H.
Qed.

(** X5. The payloads of the spans stand in the text in the order of the scan,
    one after the other without overlap: a later span starts after the
    closing delimiter of the one before. *)
Theorem payloads_in_source_order markdown :
  in_order (map captured (matches markdown)) markdown.
Proof.
  remember (String.length markdown) as n eqn:Hn.
  revert markdown Hn. induction n as [n IH] using lt_wf_ind.
  intros markdown ->.
  rewrite matches_step.
  destruct (exec markdown) as [[m rest]|] eqn:E; [|constructor].
  assert (Hrest : in_order (map captured (matches rest)) rest)
    by (eapply IH; [eapply exec_shorter; eauto|reflexivity]).
  destruct (exec_delimited _ _ _ E) as (skipped & body & [[-> ->]|[-> ->]]);
    simpl map; unfold captured at 1; simpl.
  - change (in_order (body :: map captured (matches rest))
              (skipped ++ "$$" ++ body ++ "$$" ++ rest)).
    rewrite <- (append_assoc skipped "$$").
    constructor. apply in_order_later. exact Hrest.
  - change (in_order (body :: map captured (matches rest))
              (skipped ++ "$" ++ body ++ "$" ++ rest)).
    rewrite <- (append_assoc skipped "$").
    constructor. apply in_order_later. exact Hrest.
Qed.

Lemma length_append (a b : string) :
  String.length (a ++ b) = String.length a + String.length b.
Proof. induction a as [|c a IH]; simpl; [reflexivity|rewrite IH; reflexivity]. Qed.

(** X6. Every match uses up at least three characters of the text (two
    delimiters around a payload, or four delimiters), so a text of length
    [n] holds at most [n / 3] spans. *)
Theorem matches_bounded markdown :
  3 * length (matches markdown) <= String.length markdown.
Proof.
  remember (String.length markdown) as n eqn:Hn.
  revert markdown Hn. induction n as [n IH] using lt_wf_ind.
  intros markdown ->.
  rewrite matches_step.
  destruct (exec markdown) as [[m rest]|] eqn:E; [|simpl; lia].
  assert (Hrest : 3 * length (matches rest) <= String.length rest)
    by (eapply IH; [eapply exec_shorter; eauto|reflexivity]).
  assert (Hm : match_shape m) by (eapply exec_shape; eauto).
  destruct (exec_delimited _ _ _ E) as (skipped & body & [[-> ->]|[-> ->]]).
  - rewrite !length_append. simpl in *. lia.
  - destruct Hm as [b H1 H2|b H1 H2 Hne _]; [discriminate|].
    simpl in H2. inversion H2; subst b.
    destruct body as [|c body]; [congruence|].
    rewrite !length_append. simpl in *. lia.
Qed.

Lemma math_match_here s m : math_here s = Some m -> math_match s = Some m.
Proof.
  intros H. destruct s as [|c s]; [discriminate H|].
  cbn [math_match]. rewrite H. reflexivity.
Qed.

(** X7. The math element is found exactly when the markup holds ["<math"]
    with ["</math>"] somewhere after it; what is found starts with the
    first and ends with the second. *)
Theorem math_match_iff rawRender :
  (exists found, math_match rawRender = Some found)
  <-> (exists before inner after,
          rawRender = before ++ "<math" ++ inner ++ "</math>" ++ after).
Proof.
  split.
  - intros [found H]. induction rawRender as [|c s IH]; simpl in H.
    + discriminate.
    + destruct (math_here (String c s)) as [m|] eqn:E.
      * unfold math_here in E.
        destruct (starts_with "<math" (String c s)) eqn:P; [|discriminate].
        destruct (lazy_until "</math>" (drop 5 (String c s)))
          as [[run rest]|] eqn:L; [|discriminate].
        exists "", run, rest. simpl append at 1.
        rewrite (starts_with_split _ _ P).
        apply lazy_until_split in L. simpl String.length. rewrite L.
        reflexivity.
      * destruct (IH H) as (before & inner & after & ->).
        exists (String c before), inner, after. reflexivity.
  - intros (before & inner & after & ->).
    induction before as [|c before IH].
    + destruct (lazy_until_finds "</math>" inner after)
        as (run & rest & L & _).
      exists ("<math" ++ run ++ "</math>").
      simpl append at 1.
      assert (M : math_here ("<math" ++ inner ++ "</math>" ++ after)
                  = Some ("<math" ++ run ++ "</math>")).
      { unfold math_here. rewrite starts_with_app.
        change 5 with (String.length "<math"). rewrite drop_app, L.
        reflexivity. }
      apply math_match_here. exact M.
    + destruct IH as [found IH]. simpl append. cbn [math_match].
      destruct (math_here _) as [m|]; [exists m; reflexivity|].
      exists found. exact IH.
Qed.

End ScanFacts.

(* ===================================================================== *)
(** * Properties of the saved files *)
(* ===================================================================== *)

Section ArchiveFacts.

Import Archive.

Lemma extension_run_cons c s :
  s <> "" -> extension_run (String c s) = extension_char c && extension_run s.
Proof. destruct s; [congruence|reflexivity]. Qed.

(** A text with a dot in it is not an extension. *)
Lemma extension_run_dot x y : extension_run (x ++ "." ++ y) = false.
Proof.
  induction x as [|c x IH].
  - destruct y; reflexivity.
  - change (String c x ++ "." ++ y) with (String c (x ++ "." ++ y)).
    rewrite extension_run_cons, IH; [apply andb_false_r|].
    destruct x; discriminate.
Qed.

Lemma strip_extension_stem stem ext :
  extension_run ext = true -> strip_extension (stem ++ "." ++ ext) = stem.
Proof.
  intros Hext. induction stem as [|c stem IH].
  - simpl. rewrite Hext. reflexivity.
  - simpl append. cbn [strip_extension].
    assert (H : extension_here (String c (stem ++ "." ++ ext)) = false).
    { unfold extension_here.
      destruct c as [[] [] [] [] [] [] [] []]; try reflexivity.
      apply extension_run_dot. }
    simpl append in *. rewrite H, IH. reflexivity.
Qed.

Lemma strip_extension_split s :
  (exists stem ext, s = stem ++ "." ++ ext /\ extension_run ext = true)
  \/ strip_extension s = s.
Proof.
  induction s as [|c s IH].
  - right. reflexivity.
  - destruct (extension_here (String c s)) eqn:E.
    + left. unfold extension_here in E.
      destruct (Ascii.eqb_spec c ".") as [->|N].
      * exists "", s. split; [reflexivity|exact E].
      * destruct c as [[] [] [] [] [] [] [] []]; try discriminate. congruence.
    + destruct IH as [(stem & ext & -> & Hext)|IH].
      * left. exists (String c stem), ext. split; [reflexivity|exact Hext].
      * right. cbn [strip_extension]. rewrite E, IH. reflexivity.
Qed.

(** X9. The base name of a file: when the name ends in a dot followed by one
    or more characters other than a dot and a slash, that last dot and
    what follows are cut off; any other name is kept whole (no dot, a
    trailing dot, a slash after the last dot). *)
Theorem strip_extension_spec s :
  (exists stem ext,
      s = stem ++ "." ++ ext /\ extension_run ext = true
      /\ strip_extension s = stem)
  \/ ((forall stem ext, s = stem ++ "." ++ ext -> extension_run ext = false)
      /\ strip_extension s = s).
Proof.
  destruct (strip_extension_split s) as [(stem & ext & -> & Hext)|Hsame].
  - left. exists stem, ext. repeat split; auto using strip_extension_stem.
  - right. split; [|exact Hsame].
    intros stem ext -> . destruct (extension_run ext) eqn:Hext; [|reflexivity].
    rewrite (strip_extension_stem _ _ Hext) in Hsame.
    apply (f_equal String.length) in Hsame.
    rewrite length_append in Hsame. simpl in Hsame. lia.
Qed.

Variable function_text : string.
Variable parseFromString : string -> node.
Variable serializeToString : node -> string.

#[local] Abbreviation generateMathML :=
  (Pipeline.generateMathML parseFromString serializeToString).
#[local] Abbreviation claim_name := (Archive.claim_name function_text).
#[local] Abbreviation add_result :=
  (Archive.add_result function_text parseFromString serializeToString).
#[local] Abbreviation forEach :=
  (Archive.forEach function_text parseFromString serializeToString).
#[local] Abbreviation archive_files :=
  (Archive.archive_files function_text parseFromString serializeToString).
#[local] Abbreviation handleDownload :=
  (Archive.handleDownload parseFromString serializeToString).
#[local] Abbreviation mathml_effect :=
  (Archive.mathml_effect parseFromString serializeToString).

(** The routine returns a string, whatever the renderer. *)
Lemma generateMathML_returns katex markdown :
  exists mathmlContent log,
    generateMathML katex markdown = (Return mathmlContent, log).
Proof.
  destruct katex as [k|]; [|eexists _, _; reflexivity].
  rewrite generateMathML_summary. eexists _, _; reflexivity.
Qed.

Lemma lookup_put_same used b x :
  object_prototype b = None -> lookup b (put used b x) = Some x.
Proof.
  intros H. unfold put. rewrite H. simpl. rewrite String.eqb_refl. reflexivity.
Qed.

Lemma lookup_put_other used b b' x :
  object_prototype b = None -> b <> b' ->
  lookup b' (put used b x) = lookup b' used.
Proof.
  intros H Hne. unfold put. rewrite H. simpl.
  apply String.eqb_neq in Hne. rewrite Hne. reflexivity.
Qed.

(** One use of a base name that the record does not inherit. *)
Lemma claim_name_counts used seen b :
  object_prototype b = None ->
  counts used seen ->
  snd (claim_name used b)
  = (if (count_occ string_dec seen b =? 0)%nat then b
     else b ++ "_" ++ decimal (S (count_occ string_dec seen b)))
  /\ counts (fst (claim_name used b)) (b :: seen).
Proof.
  intros Hb Hcounts. unfold Archive.claim_name, get.
  pose proof (Hcounts b Hb) as Hlook.
  rewrite Hlook, Hb.
  assert (Hstep : forall x,
             x = Num (S (count_occ string_dec seen b)) ->
             counts (put used b x) (b :: seen)).
  { intros x -> b' Hb'. simpl count_occ.
    destruct (string_dec b b') as [<-|Hne].
    - rewrite lookup_put_same by exact Hb. reflexivity.
    - rewrite lookup_put_other by assumption. apply Hcounts. exact Hb'. }
  destruct (count_occ string_dec seen b) as [|k] eqn:Hk; simpl.
  - split; [reflexivity|]. apply Hstep. reflexivity.
  - unfold get. rewrite lookup_put_same by exact Hb. simpl.
    split; [reflexivity|]. apply Hstep. reflexivity.
Qed.

(** The loop makes one call of [zip.file] per result, in order, keeps the
    files already added, and never throws. *)
Lemma forEach_files katex images results : forall z,
  exists z',
    forEach katex images results z = Return z'
    /\ exists added,
         files z' = (files z ++ added)%list
         /\ Forall2 (fun r entry =>
                       fst (generateMathML katex (markdown r))
                       = Return (snd entry)) results added.
Proof.
  induction results as [|r rest IH]; intros z; simpl.
  - exists z. split; [reflexivity|]. exists []. rewrite app_nil_r.
    split; [reflexivity|constructor].
  - unfold Archive.add_result.
    destruct (Archive.claim_name function_text (usedNames z)
                (base_name images r)) as [used' name'].
    destruct (generateMathML_returns katex (markdown r)) as (c & log & Hc).
    rewrite Hc. simpl.
    destruct (IH (mkZipping used' (files z ++ [(name' ++ ".xml", c)])
                    (warned z ++ log))) as (z' & Hz' & added & Hfiles & Hall).
    exists z'. split; [exact Hz'|].
    exists ((name' ++ ".xml", c) :: added). split.
    + rewrite Hfiles. simpl. rewrite <- app_assoc. reflexivity.
    + constructor; [rewrite Hc; reflexivity|exact Hall].
Qed.

(** The names the loop gives when no base name is a key that the record
    inherits. *)
Lemma forEach_names katex images results : forall z seen,
  Forall (fun r => object_prototype (base_name images r) = None) results ->
  counts (usedNames z) seen ->
  exists z',
    forEach katex images results z = Return z'
    /\ map fst (files z')
       = (map fst (files z)
          ++ map (fun n => (n ++ ".xml")%string)
               (numbered seen (map (base_name images) results)))%list.
Proof.
  induction results as [|r rest IH]; intros z seen Hall Hcounts; simpl.
  - exists z. rewrite app_nil_r. auto.
  - inversion Hall as [|? ? Hr Hrest]; subst.
    destruct (claim_name_counts _ _ _ Hr Hcounts) as [Hname Hcounts'].
    unfold Archive.add_result.
    destruct (Archive.claim_name function_text (usedNames z)
                (base_name images r)) as [used' name'].
    simpl in Hname, Hcounts'.
    destruct (generateMathML_returns katex (markdown r)) as (c & log & Hc).
    rewrite Hc. simpl.
    destruct (IH (mkZipping used' (files z ++ [(name' ++ ".xml", c)])
                    (warned z ++ log)) (base_name images r :: seen)
                Hrest Hcounts') as (z' & Hz' & Hnames).
    exists z'. split; [exact Hz'|].
    rewrite Hnames. simpl. rewrite map_app, <- app_assoc. simpl.
    rewrite Hname. reflexivity.
Qed.

Lemma counts_empty : counts [] [].
Proof. intros b _. reflexivity. Qed.

Lemma numbered_fresh seen bases :
  (forall b, In b bases -> ~ In b seen) -> NoDup bases ->
  numbered seen bases = bases.
Proof.
  revert seen. induction bases as [|b rest IH]; intros seen Hfresh Hnodup.
  - reflexivity.
  - inversion Hnodup as [|? ? Hb Hrest]; subst. simpl.
    rewrite (proj1 (count_occ_not_In string_dec seen b));
      [|apply Hfresh; left; reflexivity].
    simpl. f_equal. apply IH; [|exact Hrest].
    intros b' Hin [<-|Hseen]; [contradiction|].
    apply (Hfresh b'); [right; exact Hin|exact Hseen].
Qed.

(** X10. The archive is handed one file per result, in the order of the
    results, each holding what [generateMathML] returns for the markdown
    of its result; building the list never throws, even without a
    renderer. *)
Theorem archive_one_file_per_result katex images results :
  exists z,
    archive_files katex images results = Return z
    /\ Forall2 (fun r entry =>
                  fst (generateMathML katex (markdown r))
                  = Return (snd entry)) results (files z).
Proof.
  unfold Archive.archive_files.
  destruct (forEach_files katex images results (mkZipping [] [] []))
    as (z & Hz & added & Hfiles & Hall).
  exists z. split; [exact Hz|]. rewrite Hfiles. exact Hall.
Qed.

(** X11. When no base name is a key that an empty object inherits, the first
    result with a given base name is saved under that name and the
    result number [k + 1] with the same base name under the name
    followed by [_] and [k + 1]. *)
Theorem archive_names_numbered katex images results :
  Forall (fun r => object_prototype (base_name images r) = None) results ->
  exists z,
    archive_files katex images results = Return z
    /\ map fst (files z)
       = map (fun n => n ++ ".xml")
           (numbered [] (map (base_name images) results)).
Proof.
  intros Hall. unfold Archive.archive_files.
  destruct (forEach_names katex images results (mkZipping [] [] []) []
              Hall counts_empty) as (z & Hz & Hnames).
  exists z. split; [exact Hz|]. exact Hnames.
Qed.

(** X12. When the base names are pairwise different (and none is an inherited
    key), no file is renamed: each result is saved as its base name with
    [.xml]. *)
Theorem archive_names_kept katex images results :
  Forall (fun r => object_prototype (base_name images r) = None) results ->
  NoDup (map (base_name images) results) ->
  exists z,
    archive_files katex images results = Return z
    /\ map fst (files z)
       = map (fun r => base_name images r ++ ".xml") results.
Proof.
  intros Hall Hnodup. unfold Archive.archive_files.
  destruct (forEach_names katex images results (mkZipping [] [] []) []
              Hall counts_empty) as (z & Hz & Hnames).
  exists z. split; [exact Hz|]. rewrite Hnames. simpl.
  rewrite numbered_fresh; [apply map_map| |exact Hnodup].
  intros b _ [].
Qed.

(** X13. The renaming can itself produce a name that is already taken: with
    base names [b], [b] and [b_2], in this order, the second and the
    third file are both saved as [b_2.xml]. *)
Theorem archive_names_clash katex images r1 r2 r3 b :
  base_name images r1 = b ->
  base_name images r2 = b ->
  base_name images r3 = b ++ "_2" ->
  object_prototype b = None ->
  object_prototype (b ++ "_2") = None ->
  exists z,
    archive_files katex images [r1; r2; r3] = Return z
    /\ map fst (files z) = [b ++ ".xml"; b ++ "_2.xml"; b ++ "_2.xml"].
Proof.
  intros H1 H2 H3 Hb Hb2. unfold Archive.archive_files.
  destruct (forEach_names katex images [r1; r2; r3] (mkZipping [] [] []) [])
    as (z & Hz & Hnames).
  - repeat constructor; congruence.
  - apply counts_empty.
  - exists z. split; [exact Hz|]. rewrite Hnames. simpl.
    rewrite H1, H2, H3.
    destruct (string_dec b b) as [_|N]; [|congruence].
    destruct (string_dec b (b ++ "_2")) as [E|_].
    + apply (f_equal String.length) in E. rewrite length_append in E.
      simpl in E. lia.
    + simpl. rewrite !append_assoc. reflexivity.
Qed.

(** X14. A base name that an empty object inherits as a method (a file called
    [constructor.png], say) is saved with the suffix [_NaN] the first
    time, and under its plain name the second time. *)
Theorem archive_names_inherited katex images r1 r2 b :
  base_name images r1 = b ->
  base_name images r2 = b ->
  object_prototype b = Some Method ->
  exists z,
    archive_files katex images [r1; r2] = Return z
    /\ map fst (files z) = [b ++ "_NaN.xml"; b ++ ".xml"].
Proof.
  intros H1 H2 Hb. unfold Archive.archive_files. simpl.
  unfold Archive.add_result. rewrite H1.
  destruct (generateMathML_returns katex (markdown r1)) as (c1 & l1 & Hc1).
  destruct (generateMathML_returns katex (markdown r2)) as (c2 & l2 & Hc2).
  unfold Archive.claim_name at 1. unfold get, put. simpl. rewrite Hb. simpl.
  rewrite String.eqb_refl. simpl. rewrite Hc1. simpl.
  unfold Archive.add_result. rewrite H2.
  unfold Archive.claim_name, get, put. simpl.
  rewrite String.eqb_refl. simpl. rewrite Hb, Hc2. simpl.
  eexists. split; [reflexivity|]. simpl.
  rewrite !append_assoc. reflexivity.
Qed.

(** X15. For a result whose image is in the queue and whose base name is
    not a key that an empty object inherits: on the MathML tab the effect
    fills the text with what [generateMathML] returns and writes its
    warnings; saving then, with the text not edited, downloads the file
    that the archive holds for a batch made of that result alone, under
    the same name and with the same content, and the click itself writes
    nothing to the console, while the archive run writes the warnings
    that the effect wrote.  Saving before the text is filled gives the
    same file and writes those warnings itself. *)
Theorem download_agrees_with_archive katex images r img :
  find (fun i => id i =? imageId r) images = Some img ->
  object_prototype (strip_extension (name (file img))) = None ->
  exists mathmlContent log z,
    mathml_effect katex (Some r) mathml None
    = (Return (Some mathmlContent), log)
    /\ handleDownload katex (Some r) img mathml (Some mathmlContent)
       = (Return (Some (mkDownload
                          (strip_extension (name (file img)) ++ ".xml")
                          mathmlContent "application/xml;charset=utf-8")),
          [])
    /\ handleDownload katex (Some r) img mathml None
       = (Return (Some (mkDownload
                          (strip_extension (name (file img)) ++ ".xml")
                          mathmlContent "application/xml;charset=utf-8")),
          log)
    /\ archive_files katex images [r] = Return z
    /\ files z
       = [(strip_extension (name (file img)) ++ ".xml", mathmlContent)]
    /\ warned z = log.
Proof.
  intros Hfind Hb.
  destruct (generateMathML_returns katex (markdown r)) as (c & log & Hc).
  unfold Archive.mathml_effect, Archive.handleDownload,
    Archive.archive_files. simpl.
  unfold Archive.add_result, base_name. rewrite Hfind.
  unfold Archive.claim_name, get, put. simpl. rewrite Hb. simpl.
  rewrite Hc. simpl.
  exists c, log. eexists. repeat split.
Qed.

End ArchiveFacts.

(* ===================================================================== *)
(** * Properties of the answer clean-up *)
(* ===================================================================== *)

Section ServiceFacts.

Import Service.

Variable white_space : ascii -> bool.

#[local] Abbreviation all_white := (Service.all_white white_space).
#[local] Abbreviation trimStart := (Service.trimStart white_space).
#[local] Abbreviation trimEnd := (Service.trimEnd white_space).
#[local] Abbreviation trim := (Service.trim white_space).
#[local] Abbreviation clean_text := (Service.clean_text white_space).

Lemma trimStart_white ws s :
  all_white ws = true -> trimStart (ws ++ s) = trimStart s.
Proof.
  induction ws as [|c ws IH]; simpl; [reflexivity|].
  intros H. apply andb_prop in H as [-> H]. auto.
Qed.

Lemma trimStart_keeps c s :
  white_space c = false -> trimStart (String c s) = String c s.
Proof. intros H. simpl. rewrite H. reflexivity. Qed.

Lemma trimEnd_white ws : all_white ws = true -> trimEnd ws = "".
Proof.
  induction ws as [|c ws IH]; simpl; [reflexivity|].
  intros H. apply andb_prop in H as [-> H]. rewrite (IH H). reflexivity.
Qed.

Lemma trimEnd_nonempty s c :
  white_space c = false -> trimEnd (s ++ String c "") <> "".
Proof.
  intros H. induction s as [|x s IH]; simpl.
  - rewrite H. discriminate.
  - destruct (trimEnd (s ++ String c "")); [congruence|discriminate].
Qed.

(** White space after a character that is not white space is cut off,
    and nothing else. *)
Lemma trimEnd_keeps s c ws :
  white_space c = false -> all_white ws = true ->
  trimEnd (s ++ String c ws) = s ++ String c "".
Proof.
  intros Hc Hws. induction s as [|x s IH]; simpl.
  - rewrite (trimEnd_white _ Hws), Hc. reflexivity.
  - rewrite IH.
    destruct (s ++ String c "") eqn:E; [|reflexivity].
    destruct s; discriminate.
Qed.

Lemma trim_core ws1 c s d ws2 :
  white_space c = false -> white_space d = false ->
  all_white ws1 = true -> all_white ws2 = true ->
  trim (ws1 ++ String c (s ++ String d ws2)) = String c (s ++ String d "").
Proof.
  intros Hc Hd H1 H2. unfold Service.trim.
  rewrite trimStart_white by exact H1.
  rewrite trimStart_keeps by exact Hc.
  change (String c (s ++ String d ws2)) with (String c s ++ String d ws2).
  rewrite trimEnd_keeps by assumption. reflexivity.
Qed.

(** The closing fence is cut off the end of a text, and only there. *)
Lemma strip_closing_end s : strip_closing (s ++ closing_fence) = s.
Proof.
  induction s as [|c s IH].
  - reflexivity.
  - change (String c s ++ closing_fence) with (String c (s ++ closing_fence)).
    cbn [strip_closing].
    assert (N : (String c (s ++ closing_fence) =? closing_fence) = false).
    { apply String.eqb_neq. intros E.
      apply (f_equal String.length) in E. simpl in E.
      rewrite length_append in E. simpl in E. lia. }
    rewrite N, IH. reflexivity.
Qed.

(** X21. An answer wrapped in a [```markdown] fence or in a bare [```] fence,
    with any white space around the fence, is returned without the two
    fence lines; the text between them is returned as it is. *)
Theorem clean_text_unfences ws1 ws2 body :
  white_space "`" = false ->
  all_white ws1 = true -> all_white ws2 = true ->
  clean_text (ws1 ++ "```markdown" ++ String LF body ++ closing_fence ++ ws2)
  = body
  /\ clean_text (ws1 ++ "```" ++ String LF body ++ closing_fence ++ ws2)
     = body.
Proof.
  intros Htick H1 H2. unfold Service.clean_text. split.
  - replace (ws1 ++ "```markdown" ++ String LF body ++ closing_fence ++ ws2)
      with (ws1 ++ String "`" (("``markdown" ++ String LF body ++ String LF "``")
                               ++ String "`" ws2))
      by (simpl; rewrite !append_assoc; reflexivity).
    rewrite trim_core by assumption.
    replace (String "`" (("``markdown" ++ String LF body ++ String LF "``")
                         ++ String "`" ""))
      with (("```markdown" ++ String LF "") ++ body ++ closing_fence)
      by (simpl; rewrite !append_assoc; reflexivity).
    cbv zeta. rewrite append_assoc, starts_with_app.
    rewrite <- append_assoc. unfold strip_opening.
    rewrite starts_with_app, drop_app. apply strip_closing_end.
  - replace (ws1 ++ "```" ++ String LF body ++ closing_fence ++ ws2)
      with (ws1 ++ String "`" (("``" ++ String LF body ++ String LF "``")
                               ++ String "`" ws2))
      by (simpl; rewrite !append_assoc; reflexivity).
    rewrite trim_core by assumption.
    replace (String "`" (("``" ++ String LF body ++ String LF "``")
                         ++ String "`" ""))
      with (("```" ++ String LF "") ++ body ++ closing_fence)
      by (simpl; rewrite !append_assoc; reflexivity).
    cbv zeta.
    replace (starts_with "```markdown"
               (("```" ++ String LF "") ++ body ++ closing_fence))
      with false by reflexivity.
    rewrite append_assoc, starts_with_app.
    rewrite <- append_assoc. unfold strip_opening.
    rewrite starts_with_app, drop_app. apply strip_closing_end.
Qed.

Lemma single_line_unique a b x y :
  single_line a = true -> single_line b = true ->
  a ++ String LF x = b ++ String LF y -> a = b.
Proof.
  revert b. induction a as [|c a IH]; intros [|d b] Ha Hb E; simpl in *.
  - reflexivity.
  - inversion E; subst d. rewrite Ascii.eqb_refl in Hb. discriminate.
  - inversion E; subst c. rewrite Ascii.eqb_refl in Ha. discriminate.
  - inversion E; subst d. apply andb_prop in Ha as [_ Ha].
    apply andb_prop in Hb as [_ Hb]. f_equal. eauto.
Qed.

(** X22. A fence with another language tag loses its closing line only: the
    opening line stays in the text that is returned. *)
Theorem clean_text_keeps_other_fence lang body :
  white_space "`" = false ->
  single_line lang = true -> lang <> "" -> lang <> "markdown" ->
  clean_text ("```" ++ lang ++ String LF body ++ closing_fence)
  = "```" ++ lang ++ String LF body.
Proof.
  intros Htick Hline Hne Hmd.
  set (text := "```" ++ lang ++ String LF body ++ closing_fence).
  assert (Htrim : trim text = text).
  { unfold text.
    replace ("```" ++ lang ++ String LF body ++ closing_fence)
      with ("" ++ String "`" (("``" ++ lang ++ String LF body ++ String LF "``")
                              ++ String "`" ""))
      by (unfold closing_fence;
          repeat (progress (simpl; rewrite ?append_assoc)); reflexivity).
    rewrite trim_core by (assumption || reflexivity). reflexivity. }
  assert (Hclose : strip_closing text = "```" ++ lang ++ String LF body).
  { unfold text.
    replace ("```" ++ lang ++ String LF body ++ closing_fence)
      with (("```" ++ lang ++ String LF body) ++ closing_fence)
      by (unfold closing_fence;
          repeat (progress (simpl; rewrite ?append_assoc)); reflexivity).
    apply strip_closing_end. }
  assert (H1 : starts_with ("```markdown" ++ String LF "") text = false).
  { destruct (starts_with ("```markdown" ++ String LF "") text) eqn:P;
      [|reflexivity].
    apply starts_with_split in P. unfold text in P. exfalso. apply Hmd.
    simpl in P. inversion P as [E].
    apply (single_line_unique lang "markdown" _ _ Hline eq_refl E). }
  assert (H2 : starts_with ("```" ++ String LF "") text = false).
  { unfold text. destruct lang as [|c lang]; [congruence|].
    simpl in Hline. apply andb_prop in Hline as [Hc _].
    apply negb_true_iff in Hc. simpl. rewrite Ascii.eqb_sym, Hc.
    reflexivity. }
  unfold Service.clean_text. rewrite Htrim. cbv zeta.
  unfold strip_opening. rewrite H1, H2.
  destruct (starts_with "```markdown" text);
    [exact Hclose|].
  replace (starts_with "```" text) with true by reflexivity.
  exact Hclose.
Qed.

Lemma trimStart_all_white ws : all_white ws = true -> trimStart ws = "".
Proof.
  induction ws as [|c ws IH]; simpl; [reflexivity|].
  intros H. apply andb_prop in H as [-> H]. auto.
Qed.

Variable generateContent : string -> string -> settled (option string).

#[local] Abbreviation convertImageToMarkdown :=
  (Service.convertImageToMarkdown white_space generateContent).

(** X23. An answer made of white space only is not an error: the call is
    fulfilled with the empty text and writes nothing to the console;
    only a missing or empty answer is rejected, with the message
    ["No text returned from the model."], which is also logged. *)
Theorem blank_answer_is_empty_markdown base64Data mimeType :
  (forall t,
      generateContent base64Data mimeType = Fulfilled (Some t) ->
      t <> "" -> all_white t = true ->
      convertImageToMarkdown base64Data mimeType = (Fulfilled "", []))
  /\ (generateContent base64Data mimeType = Fulfilled None
      \/ generateContent base64Data mimeType = Fulfilled (Some "") ->
      convertImageToMarkdown base64Data mimeType
      = (Rejected (ErrorObject "No text returned from the model."),
         [("Gemini API Error:",
           ErrorObject "No text returned from the model.")])).
Proof.
  unfold Service.convertImageToMarkdown, try_convert. split.
  - intros t Ht Hne Hwhite. rewrite Ht.
    destruct t as [|c t]; [congruence|].
    unfold Service.clean_text, Service.trim.
    rewrite (trimStart_all_white _ Hwhite). reflexivity.
  - intros [H|H]; rewrite H; reflexivity.
Qed.

End ServiceFacts.

(* ===================================================================== *)
(** * Properties of the page state *)
(* ===================================================================== *)

Section AppFacts.

Import Archive Service App.



(** X17. Removing an image leaves no image and no result with its id, and
    keeps every result attached to an image of the queue; adding images
    keeps that too, and clearing establishes it. *)
Theorem handlers_keep_results_attached m :
  (forall removed,
      (forall img, In img (images (handleRemoveImage removed m)) ->
                   id img <> removed)
      /\ (forall r, In r (results (handleRemoveImage removed m)) ->
                    imageId r <> removed)
      /\ (attached m -> attached (handleRemoveImage removed m)))
  /\ (forall newFiles, attached m -> attached (handleImagesSelected newFiles m))
  /\ attached (handleClearAll m).
Proof.
  split; [|split].
  - intros removed. split; [|split].
    + intros img Hin. simpl in Hin. apply filter_In in Hin as [_ H].
      apply negb_true_iff, String.eqb_neq in H. exact H.
    + intros r Hin. simpl in Hin. apply filter_In in Hin as [_ H].
      apply negb_true_iff, String.eqb_neq in H. exact H.
    + intros Hatt r Hin. simpl in Hin. apply filter_In in Hin as [Hin H].
      destruct (Hatt r Hin) as (img & Himg & Hid).
      exists img. split; [|exact Hid]. simpl. apply filter_In.
      split; [exact Himg|]. rewrite Hid. exact H.
  - intros newFiles Hatt r Hin. simpl in Hin.
    destruct (Hatt r Hin) as (img & Himg & Hid).
    exists img. split; [|exact Hid]. simpl. apply in_or_app. left. exact Himg.
  - intros r [].
Qed.

Variable convert : string -> string -> settled string * list console_error.
Variable etrSeconds : nat -> BinNums.Z.

#[local] Abbreviation item_of := (App.item_of convert).
#[local] Abbreviation logged_for := (App.logged_for convert).
#[local] Abbreviation process_one := (App.process_one convert etrSeconds).
#[local] Abbreviation process_all := (App.process_all convert etrSeconds).
#[local] Abbreviation processImages := (App.processImages convert etrSeconds).

(** The loop visits every image: it is never left by a throw. *)
Lemma process_all_spec n imgs : forall r,
  process_all n imgs r
  = (mkRun (run_results r ++ map item_of imgs)
           (run_progress r
            ++ map (fun k => mkProgress k n (etrSeconds k))
                 (seq (S (completed r)) (length imgs)))
           (run_errors r ++ flat_map logged_for imgs)
           (completed r + length imgs),
     None).
Proof.
  induction imgs as [|img imgs IH]; intros r.
  - simpl. rewrite !app_nil_r, Nat.add_0_r. destruct r; reflexivity.
  - cbn [App.process_all]. unfold App.process_one.
    unfold App.item_of, App.logged_for in *. simpl flat_map. simpl map.
    destruct (convert (base64 img) (mimeType img)) as [[md|e] written];
      rewrite IH; simpl; rewrite <- !app_assoc; simpl;
      rewrite Nat.add_succ_r; reflexivity.
Qed.

(** X18. A run over a queue that is not empty ends in the state [SUCCESS],
    never [ERROR], with one result per image, in the order of the queue
    and under the id of its image; a conversion that throws gives an
    error item and the run goes on.  The progress goes from 0 to the
    number of images and is cleared at the end.  The console receives,
    image by image, what the conversion wrote and then, when it threw,
    the entry of the run itself: with [convertImageToMarkdown], which
    logs before it rethrows, that is two entries for an image that fails
    and none for one that succeeds. *)
Theorem processImages_one_result_per_image m :
  images m <> [] ->
  processImages m
  = (mkModel SUCCESS (images m) (map item_of (images m)) None None,
     mkProgress 0 (length (images m)) BinNums.Z0
       :: map (fun k => mkProgress k (length (images m)) (etrSeconds k))
            (seq 1 (length (images m))),
     flat_map logged_for (images m))
  /\ (forall white_space generateContent img,
        App.logged_for
          (Service.convertImageToMarkdown white_space generateContent) img
        = match try_convert white_space generateContent
                  (base64 img) (mimeType img) with
          | Fulfilled _ => []
          | Rejected e =>
              [("Gemini API Error:", e);
               ("Error processing image " ++ id img, e)]
          end).
Proof.
  intros Hne. split.
  - unfold App.processImages.
    destruct (images m) as [|img imgs] eqn:E; [congruence|].
    rewrite process_all_spec. reflexivity.
  - intros white_space generateContent img.
    unfold App.logged_for, Service.convertImageToMarkdown.
    destruct (try_convert white_space generateContent
                (base64 img) (mimeType img)); reflexivity.
Qed.

Lemma find_own_item (imgs : list UploadedFile) img :
  NoDup (map id imgs) -> In img imgs ->
  find (fun r => imageId r =? id img) (map item_of imgs) = Some (item_of img).
Proof.
  induction imgs as [|x imgs IH]; intros Hnodup Hin; [destruct Hin|].
  inversion Hnodup as [|? ? Hx Hrest]; subst. simpl.
  assert (Hid : forall i, imageId (item_of i) = id i).
  { intros i. unfold App.item_of.
    destruct (fst (convert (base64 i) (mimeType i))); reflexivity. }
  rewrite Hid.
  destruct Hin as [->|Hin].
  - rewrite String.eqb_refl. reflexivity.
  - destruct (id x =? id img) eqn:E.
    + apply String.eqb_eq in E. exfalso. apply Hx. rewrite E.
      apply in_map. exact Hin.
    + apply IH; assumption.
Qed.

(** X19. After a run over images with pairwise different ids, every image is
    shown with its own result. *)
Theorem processed_rows_are_own m :
  images m <> [] ->
  NoDup (map id (images m)) ->
  let m' := fst (fst (processImages m)) in
  result_rows (images m') (results m')
  = map (fun img => (img, Some (item_of img))) (images m).
Proof.
  intros Hne Hnodup. unfold App.processImages.
  destruct (images m) as [|img0 imgs] eqn:E; [congruence|].
  rewrite process_all_spec. cbn [fst run_results images results app].
  unfold result_rows. apply map_ext_in.
  intros img Hin. rewrite find_own_item by assumption. reflexivity.
Qed.

Variable parseFromString : string -> node.
Variable serializeToString : node -> string.

Lemma dollar_free_app a b :
  dollar_free (a ++ b) = dollar_free a && dollar_free b.
Proof.
  induction a as [|c a IH]; simpl; [reflexivity|].
  rewrite IH, andb_assoc. reflexivity.
Qed.

(** X20. The item of an image whose conversion threw carries the two-line
    error text, under the id of the image; unless the message of the
    error holds a dollar sign, its MathML is the fixed string
    ["No mathematical formulas detected."] . *)
Theorem error_item_has_no_formulas katex img e :
  fst (convert (base64 img) (mimeType img)) = Rejected e ->
  dollar_free (match e with
               | ErrorObject message => message
               | OtherValue => "Unknown error"
               end) = true ->
  item_of img = mkResult (id img) (error_markdown e)
  /\ Pipeline.generateMathML parseFromString serializeToString (Some katex)
       (markdown (item_of img))
     = (Return "No mathematical formulas detected.", []).
Proof.
  intros Hconv Hfree. unfold App.item_of. rewrite Hconv.
  split; [reflexivity|].
  rewrite generateMathML_summary.
  rewrite matches_dollar_free; [reflexivity|].
  simpl markdown. unfold error_markdown.
  rewrite dollar_free_app. simpl. rewrite Hfree. reflexivity.
Qed.

End AppFacts.

(* ===================================================================== *)
(** * Further properties of the assembled output *)
(* ===================================================================== *)

Section ReturnFacts.

Variable parseFromString : string -> node.
Variable serializeToString : node -> string.

(** X8. Whatever the text and the renderer, missing or not, the routine
    returns normally and what it returns is never the empty string: a
    file saved from it always has content. *)
Theorem generateMathML_never_empty katex markdown :
  exists mathmlContent,
    fst (Pipeline.generateMathML parseFromString serializeToString
           katex markdown) = Return mathmlContent
    /\ mathmlContent <> "".
Proof.
  destruct katex as [k|].
  - rewrite generateMathML_summary. cbv zeta. simpl fst.
    destruct (String.concat blank_line
                (fragments parseFromString serializeToString k
                   (matches markdown)) =? "") eqn:E.
    + eexists. split; [reflexivity|discriminate].
    + eexists. split; [reflexivity|]. apply String.eqb_neq. exact E.
  - eexists. split; [reflexivity|discriminate].
Qed.

Lemma fragments_nonempty katex ms :
  host_ok parseFromString serializeToString ->
  Forall (fun c => c <> "")
    (fragments parseFromString serializeToString katex ms).
Proof.
  intros [Hparse Hser]. unfold fragments.
  induction ms as [|m ms IH]; [constructor|].
  simpl. apply Forall_app. split; [|exact IH].
  unfold attempt, bind.
  destruct (katex (latex_of m) (isBlock_of m)) as [raw|e]; [|constructor].
  destruct (math_match raw) as [mm|]; [|constructor].
  constructor; [|constructor]. apply Hser.
  rewrite normalize_is_element. apply Hparse.
Qed.

(** X25. For any mixture of spans that succeed, spans whose renderer
    throws and spans whose markup holds no math element, the routine
    returns the fragments of the spans that succeed, in the order of the
    text and joined by one blank line, or the fixed notice when none
    succeeds; the console holds one warning per throw, in the order of
    the text, and nothing for a missing math element. *)
Theorem generateMathML_any_failures katex markdown :
  host_ok parseFromString serializeToString ->
  Pipeline.generateMathML parseFromString serializeToString
    (Some katex) markdown
  = (Return
       (match fragments parseFromString serializeToString katex
                (matches markdown) with
        | [] => "No mathematical formulas detected."
        | written => String.concat blank_line written
        end),
     warnings parseFromString serializeToString katex (matches markdown)).
Proof.
  intros Hhost. rewrite generateMathML_summary. cbv zeta.
  pose proof (fragments_nonempty katex (matches markdown) Hhost) as Hne.
  destruct (fragments parseFromString serializeToString katex
              (matches markdown)) as [|c cs] eqn:E; [reflexivity|].
  rewrite eqb_nonempty; [reflexivity|].
  apply concat_nonempty; [discriminate|exact Hne].
Qed.

End ReturnFacts.

(* ===================================================================== *)
(** * Worked examples for the further properties *)
(* ===================================================================== *)

Section MoreExamples.

Import Archive Service App Samples.

Lemma archive_names_numbered_witness :
  Forall (fun r => object_prototype (base_name queue r) = None) [rA; rB]
  /\ exists z,
       archive_files "" Host.parseFromString Host.serializeToString
         (Some (Host.echo false)) queue [rA; rB] = Return z
       /\ map fst (files z)
          = map (fun n => n ++ ".xml")
              (numbered [] (map (base_name queue) [rA; rB])).
Proof.
  assert (H : Forall (fun r => object_prototype (base_name queue r) = None)
                [rA; rB]) by (repeat constructor).
  split; [exact H|].
  exact (archive_names_numbered "" _ _ (Some (Host.echo false)) queue _ H).
Defined.

Lemma archive_names_kept_witness :
  Forall (fun r => object_prototype (base_name queue r) = None) [rA; rC]
  /\ NoDup (map (base_name queue) [rA; rC])
  /\ exists z,
       archive_files "" Host.parseFromString Host.serializeToString
         (Some (Host.echo false)) queue [rA; rC] = Return z
       /\ map fst (files z)
          = map (fun r => base_name queue r ++ ".xml") [rA; rC].
Proof.
  assert (H : Forall (fun r => object_prototype (base_name queue r) = None)
                [rA; rC]) by (repeat constructor).
  assert (N : NoDup (map (base_name queue) [rA; rC])).
  { repeat constructor; simpl; intuition discriminate. }
  split; [exact H|]. split; [exact N|].
  exact (archive_names_kept "" _ _ (Some (Host.echo false)) queue _ H N).
Defined.

Lemma archive_names_clash_witness :
  base_name queue rA = "scan" /\ base_name queue rB = "scan"
  /\ base_name queue rC = "scan" ++ "_2"
  /\ exists z,
       archive_files "" Host.parseFromString Host.serializeToString
         (Some (Host.echo false)) queue [rA; rB; rC] = Return z
       /\ map fst (files z) = ["scan.xml"; "scan_2.xml"; "scan_2.xml"].
Proof.
  split; [reflexivity|]. split; [reflexivity|]. split; [reflexivity|].
  exact (archive_names_clash "" _ _ (Some (Host.echo false)) queue
           rA rB rC "scan" eq_refl eq_refl eq_refl eq_refl eq_refl).
Defined.

Lemma archive_names_inherited_witness :
  let imgs := [upload "A" "constructor.png"; upload "B" "constructor.jpg"] in
  base_name imgs rA = "constructor" /\ base_name imgs rB = "constructor"
  /\ object_prototype "constructor" = Some Method
  /\ exists z,
       archive_files "" Host.parseFromString Host.serializeToString
         (Some (Host.echo false)) imgs [rA; rB] = Return z
       /\ map fst (files z) = ["constructor_NaN.xml"; "constructor.xml"].
Proof.
  intros imgs.
  split; [reflexivity|]. split; [reflexivity|]. split; [reflexivity|].
  exact (archive_names_inherited "" _ _ (Some (Host.echo false)) imgs
           rA rB "constructor" eq_refl eq_refl eq_refl).
Defined.

Lemma download_agrees_with_archive_witness :
  find (fun i => id i =? imageId rA) queue = Some (upload "A" "scan.png")
  /\ object_prototype (strip_extension "scan.png") = None
  /\ exists mathmlContent log z,
       mathml_effect Host.parseFromString Host.serializeToString
         (Some (Host.echo false)) (Some rA) mathml None
       = (Return (Some mathmlContent), log)
       /\ handleDownload Host.parseFromString Host.serializeToString
            (Some (Host.echo false)) (Some rA) (upload "A" "scan.png")
            mathml (Some mathmlContent)
          = (Return (Some (mkDownload ("scan" ++ ".xml") mathmlContent
                             "application/xml;charset=utf-8")), [])
       /\ handleDownload Host.parseFromString Host.serializeToString
            (Some (Host.echo false)) (Some rA) (upload "A" "scan.png")
            mathml None
          = (Return (Some (mkDownload ("scan" ++ ".xml") mathmlContent
                             "application/xml;charset=utf-8")), log)
       /\ archive_files "" Host.parseFromString Host.serializeToString
            (Some (Host.echo false)) queue [rA] = Return z
       /\ files z = [("scan" ++ ".xml", mathmlContent)]
       /\ warned z = log.
Proof.
  split; [reflexivity|]. split; [reflexivity|].
  exact (download_agrees_with_archive "" _ _ (Some (Host.echo false)) queue
           rA (upload "A" "scan.png") eq_refl eq_refl).
Defined.

Lemma clean_text_unfences_witness :
  Host.white_space "`" = false
  /\ all_white Host.white_space " " = true
  /\ all_white Host.white_space (String LF "") = true
  /\ clean_text Host.white_space
       (" " ++ "```markdown" ++ String LF "$x$" ++ closing_fence
        ++ String LF "")
     = "$x$".
Proof.
  split; [reflexivity|]. split; [reflexivity|]. split; [reflexivity|].
  exact (proj1 (clean_text_unfences Host.white_space " " (String LF "") "$x$"
                  eq_refl eq_refl eq_refl)).
Defined.

Lemma clean_text_keeps_other_fence_witness :
  Host.white_space "`" = false
  /\ single_line "latex" = true /\ "latex" <> "" /\ "latex" <> "markdown"
  /\ clean_text Host.white_space
       ("```" ++ "latex" ++ String LF "x^2" ++ closing_fence)
     = "```" ++ "latex" ++ String LF "x^2".
Proof.
  assert (N1 : "latex" <> "") by discriminate.
  assert (N2 : "latex" <> "markdown") by discriminate.
  split; [reflexivity|]. split; [reflexivity|].
  split; [exact N1|]. split; [exact N2|].
  exact (clean_text_keeps_other_fence Host.white_space "latex" "x^2"
           eq_refl eq_refl N1 N2).
Defined.

Lemma blank_answer_is_empty_markdown_witness :
  sample_model "" "image/gif" = Fulfilled (Some "  ")
  /\ "  " <> "" /\ all_white Host.white_space "  " = true
  /\ convertImageToMarkdown Host.white_space sample_model "" "image/gif"
     = (Fulfilled "", []).
Proof.
  assert (N : "  " <> "") by discriminate.
  split; [reflexivity|]. split; [exact N|]. split; [reflexivity|].
  exact (proj1 (blank_answer_is_empty_markdown Host.white_space sample_model
                  "" "image/gif") "  " eq_refl N eq_refl).
Defined.

Lemma processImages_one_result_per_image_witness :
  images sample_page <> []
  /\ results (fst (fst (processImages sample_convert (fun _ => BinNums.Z0)
                          sample_page)))
     = [mkResult "A" "$x$";
        mkResult "B" (error_markdown
                        (ErrorObject "No text returned from the model."))]
  /\ snd (processImages sample_convert (fun _ => BinNums.Z0) sample_page)
     = [("Gemini API Error:",
         ErrorObject "No text returned from the model.");
        ("Error processing image B",
         ErrorObject "No text returned from the model.")].
Proof.
  assert (N : images sample_page <> []) by discriminate.
  split; [exact N|].
  rewrite (proj1 (processImages_one_result_per_image sample_convert
                    (fun _ => BinNums.Z0) sample_page N)).
  split; reflexivity.
Defined.

Lemma processed_rows_are_own_witness :
  images sample_page <> []
  /\ NoDup (map id (images sample_page))
  /\ let m' := fst (fst (processImages sample_convert (fun _ => BinNums.Z0)
                           sample_page)) in
     result_rows (images m') (results m')
     = map (fun img => (img, Some (item_of sample_convert img)))
         (images sample_page).
Proof.
  assert (N : images sample_page <> []) by discriminate.
  assert (D : NoDup (map id (images sample_page))).
  { repeat constructor; simpl; intuition discriminate. }
  split; [exact N|]. split; [exact D|].
  exact (processed_rows_are_own sample_convert (fun _ => BinNums.Z0)
           sample_page N D).
Defined.

Lemma error_item_has_no_formulas_witness :
  let img := mkUpload "B" "" (mkFile "b.bmp" "image/bmp") "" "image/bmp" in
  fst (sample_convert (base64 img) (mimeType img))
  = Rejected (ErrorObject "No text returned from the model.")
  /\ dollar_free "No text returned from the model." = true
  /\ Pipeline.generateMathML Host.parseFromString Host.serializeToString
       (Some (Host.echo false)) (markdown (item_of sample_convert img))
     = (Return "No mathematical formulas detected.", []).
Proof.
  intros img. split; [reflexivity|]. split; [reflexivity|].
  exact (proj2 (error_item_has_no_formulas sample_convert
                  Host.parseFromString Host.serializeToString
                  (Host.echo false) img
                  (ErrorObject "No text returned from the model.")
                  eq_refl eq_refl)).
Defined.

Lemma handlers_keep_results_attached_witness :
  let m := mkModel SUCCESS queue [rA; rB] None None in
  attached m /\ attached (handleRemoveImage "A" m).
Proof.
  intros m.
  assert (H : attached m).
  { intros r [<-|[<-|[]]].
    - exists (upload "A" "scan.png"). split; [left; reflexivity|reflexivity].
    - exists (upload "B" "scan.png").
      split; [right; left; reflexivity|reflexivity]. }
  split; [exact H|].
  exact (proj2 (proj2 (proj1 (handlers_keep_results_attached m) "A")) H).
Defined.

Lemma generateMathML_any_failures_witness :
  host_ok Host.parseFromString Host.serializeToString
  /\ Pipeline.generateMathML Host.parseFromString Host.serializeToString
       (Some (Host.echo true)) "$b$ then $$a$$ then $$$$ and $a$"
     = (Return (String.concat blank_line
                  ["<math><mi>a</mi></math>"; "<math><mi>a</mi></math>"]),
        [("Error converting equation to MathML", "ParseError");
         ("Error converting equation to MathML",
          "KaTeX can only parse string typed expression")]).
Proof.
  split; [exact sample_host_ok|].
  rewrite (generateMathML_any_failures Host.parseFromString
             Host.serializeToString (Host.echo true)
             "$b$ then $$a$$ then $$$$ and $a$" sample_host_ok).
  replace (matches "$b$ then $$a$$ then $$$$ and $a$")
    with [mkGroups undefined (str "b"); mkGroups (str "a") undefined;
          mkGroups (str "") undefined; mkGroups undefined (str "a")]
    by (vm_compute; reflexivity).
  vm_compute. reflexivity.
Defined.

End MoreExamples.
